(** * The PUMA mapping pipeline: windowed accumulation, reconstruction
      trigger, mesh fusion and checkpointing

    Shallow embedding of [main] in [apps/pipelines/slam/puma_pipeline.py].
    The driving loop is embedded statement by statement in a small
    trace-and-exception monad; the geometry back end (Open3D and the [puma]
    package) is an interface, [Backend]. *)

From Stdlib Require Import ZArith List String Ascii Bool Lia.
Import ListNotations.
Local Open Scope string_scope.
Local Open Scope list_scope.
Local Open Scope Z_scope.

(** ** Python values and built-ins used by the script *)

Module Py.

(** The exceptions the embedded statements can raise. *)
Inductive exn : Type :=
| IndexError     (* [l[i]] with [i] outside the list *)
| ValueError     (* [deque(maxlen=k)] with [k < 0] *)
| OverflowError. (* [deque(maxlen=k)] with [k] above [sys.maxsize] *)

(** [sys.maxsize] of a 64-bit CPython, the largest [Py_ssize_t]. *)
Definition ssize_t_max : Z := 2 ^ 63 - 1.

(** What [deque(maxlen=k)] raises, if anything: [ValueError] for a negative
    [maxlen], [OverflowError] for one that does not fit a [Py_ssize_t]. *)
Definition deque_maxlen_error (k : Z) : option exn :=
  if k <? 0 then Some ValueError
  else if ssize_t_max <? k then Some OverflowError
  else None.

(** [len(l)] as a Python integer. *)
Definition len {A : Type} (l : list A) : Z := Z.of_nat (List.length l).

(** [l[i]]: non-negative indices count from the front, negative ones from
    the back, anything else raises [IndexError] ([None] here). *)
Definition index {A : Type} (l : list A) (i : Z) : option A :=
  if (0 <=? i) && (i <? len l) then nth_error l (Z.to_nat i)
  else if (- len l <=? i) && (i <? 0) then nth_error l (Z.to_nat (len l + i))
  else None.

(** [range(a, b)]: the integers [a, a+1, ..., b-1]; empty when [b <= a]. *)
Definition range (a b : Z) : list Z :=
  map (fun k => a + Z.of_nat k) (seq 0 (Z.to_nat (b - a))).

(** [d.append(x)] on a [collections.deque] built with [maxlen]: the element
    goes to the right end and, if the deque is then longer than [maxlen],
    the leftmost element is dropped. *)
Definition deque_append {A : Type} (maxlen : Z) (d : list A) (x : A) : list A :=
  let d' := d ++ [x] in
  if maxlen <? len d' then tl d' else d'.

Definition starts_with_sep (s : string) : bool :=
  match s with
  | String c _ => Ascii.eqb c "/"
  | EmptyString => false
  end.

Fixpoint ends_with_sep (s : string) : bool :=
  match s with
  | EmptyString => false
  | String c EmptyString => Ascii.eqb c "/"
  | String _ s' => ends_with_sep s'
  end.

(** [os.path.join(a, b)] on a POSIX system. *)
Definition os_path_join (a b : string) : string :=
  if starts_with_sep b then b
  else if (String.length a =? 0)%nat || ends_with_sep a then (a ++ b)%string
  else (a ++ "/" ++ b)%string.

End Py.

(** ** The collaborators of the controller

    Everything [main] calls but does not define: the configuration object,
    Open3D's point clouds and triangle meshes, and the [puma] helpers. *)

Class Backend : Type := {
  Config : Type;
  out_dir : Config -> string;            (* config.out_dir *)
  acc_frame_count : Config -> Z;         (* config.acc_frame_count *)
  acc_map_count : Config -> Z;           (* config.acc_map_count *)
  PointCloud : Type;
  Pose : Type;
  Mesh : Type;
  (* o3d.io.read_point_cloud(name) *)
  read_point_cloud : string -> PointCloud;
  (* puma.preprocessing.preprocess(raw_scan, config) *)
  preprocess : PointCloud -> Config -> PointCloud;
  (* scan.transform(pose) *)
  transform : PointCloud -> Pose -> PointCloud;
  (* create_mesh_from_map(local_map, config.depth, config.n_threads,
     config.min_density)[0] *)
  create_mesh_from_map : list PointCloud -> Config -> Mesh;
  (* o3d.geometry.TriangleMesh() *)
  TriangleMesh_new : Mesh;
  (* global_mesh += mesh *)
  mesh_iadd : Mesh -> Mesh -> Mesh;
  (* m.remove_duplicated_triangles() *)
  remove_duplicated_triangles : Mesh -> Mesh;
  (* m.remove_duplicated_vertices() *)
  remove_duplicated_vertices : Mesh -> Mesh
}.

(** Modelled from the spec: [get_progress_bar] of [puma.utils] is not among
    the sources.  The spec describes the index set of the driving loop as a
    half-open interval of frame indices ending at [n_scans]; the helper is the
    half-open interval of its two arguments, [first_scan] and [last_scan]. *)
Definition get_progress_bar (first_scan last_scan : Z) : list Z :=
  Py.range first_scan last_scan.

(** ** Observable effects and the monad of the script *)

Inductive Outcome (A : Type) : Type :=
| Done (a : A)
| Raised (e : Py.exn).
Arguments Done {A} a.
Arguments Raised {A} e.

Section Pipeline.

Context {B : Backend}.

(** One constructor per effectful call of [main] that the properties below
    speak about; the payloads are the arguments of the call. *)
Inductive Event : Type :=
| SaveConfig (path : string)                          (* line 114 *)
| ReadPointCloud (idx : Z) (name : string)            (* line 145 *)
| Append (idx : Z) (scan : PointCloud)                (* line 148 *)
| CreateMesh (idx : Z) (window : list PointCloud)     (* line 162 *)
| WriteTriangleMesh (path : string) (m : Mesh).       (* lines 175, 181 *)

(** A computation yields the events it performed, in order, and either a
    value or the exception that stopped it. *)
Definition M (A : Type) : Type := (list Event * Outcome A)%type.

Definition ret {A : Type} (a : A) : M A := ([], Done a).

Definition bind {A C : Type} (m : M A) (k : A -> M C) : M C :=
  match m with
  | (t1, Done a) => let (t2, r) := k a in (t1 ++ t2, r)
  | (t1, Raised e) => (t1, Raised e)
  end.

Definition emit (e : Event) : M unit := ([e], Done tt).

Definition raise {A : Type} (e : Py.exn) : M A := ([], Raised e).

(** [l[i]] as a statement. *)
Definition subscript {A : Type} (l : list A) (i : Z) : M A :=
  match Py.index l i with
  | Some x => ret x
  | None => raise Py.IndexError
  end.

(** [for x in xs: st = body(x, st)], stopping at the first exception. *)
Fixpoint for_each {S : Type} (xs : list Z) (body : Z -> S -> M S) (st : S) : M S :=
  match xs with
  | [] => ret st
  | x :: xs' => bind (body x st) (for_each xs' body)
  end.

End Pipeline.

Declare Scope pipeline_scope.
Delimit Scope pipeline_scope with pipeline.
Notation "x <- m ;; k" := (bind m (fun x => k))
  (at level 100, m at next level, right associativity) : pipeline_scope.
Notation "m ;; k" := (bind m (fun _ => k))
  (at level 100, right associativity) : pipeline_scope.
Local Open Scope pipeline_scope.

(** ** The driving loop *)

Section Main.

Context {B : Backend}.

(** What [main] has in hand when it reaches line 111: the parsed
    configuration, the run identity [map_name] built on lines 103-109, the
    sorted scan file names (line 124), the poses (line 117) and the two
    command-line values that steer the loop. *)
Record Args : Type := {
  config : Config;
  map_name : string;
  scan_names : list string;
  poses : list Pose;
  n_scans_opt : Z;          (* --n_scans, -1 by default *)
  odometry_only : bool      (* --odometry_only *)
}.

(** The variables the loop reads and assigns. *)
Record Vars : Type := {
  mesh : Mesh;
  local_map : list PointCloud;
  global_mesh : Mesh;
  scan_count : Z;
  map_count : Z
}.

(** The same invocation with the [--odometry_only] flag set to [b]. *)
Definition with_odometry_only (b : bool) (a : Args) : Args :=
  {| config := config a; map_name := map_name a; scan_names := scan_names a;
     poses := poses a; n_scans_opt := n_scans_opt a; odometry_only := b |}.

(** The same invocation under another run identity. *)
Definition with_map_name (name : string) (a : Args) : Args :=
  {| config := config a; map_name := name; scan_names := scan_names a;
     poses := poses a; n_scans_opt := n_scans_opt a; odometry_only := odometry_only a |}.

(** Line 127. *)
Definition n_scans (a : Args) : Z :=
  if n_scans_opt a =? -1 then Py.len (scan_names a) else n_scans_opt a.

Definition config_file (a : Args) : string :=
  Py.os_path_join (out_dir (config a)) (map_name a ++ ".yml")%string.

(** Line 173. *)
Definition interim_map_file (a : Args) : string :=
  Py.os_path_join (out_dir (config a)) (map_name a ++ "_iterm.ply")%string.

(** Line 179. *)
Definition final_map_file (a : Args) : string :=
  Py.os_path_join (out_dir (config a)) (map_name a ++ ".ply")%string.

(** Lines 130-141. *)
Definition init : Vars :=
  {| mesh := TriangleMesh_new;
     local_map := [];
     global_mesh := TriangleMesh_new;
     scan_count := 0;
     map_count := 0 |}.

(** Lines 144-175, one iteration.  [save_plys] is the constant [False], so
    lines 150-155 do not run; progress reporting is left out. *)
Definition loop_body (a : Args) (idx : Z) (v : Vars) : M Vars :=
  name <- subscript (scan_names a) idx ;;
  emit (ReadPointCloud idx name) ;;
  let raw_scan := read_point_cloud name in
  let scan := preprocess raw_scan (config a) in
  pose <- subscript (poses a) idx ;;
  let scan := transform scan pose in
  let local_map := Py.deque_append (acc_frame_count (config a)) (local_map v) scan in
  emit (Append idx scan) ;;
  let scan_count := scan_count v + 1 in
  if (scan_count >=? acc_frame_count (config a)) || (idx =? n_scans a - 1) then
    let scan_count := 0 in
    emit (CreateMesh idx local_map) ;;
    let mesh := create_mesh_from_map local_map (config a) in
    let global_mesh := mesh_iadd (global_mesh v) mesh in
    let global_mesh := remove_duplicated_triangles global_mesh in
    let global_mesh := remove_duplicated_vertices global_mesh in
    let map_count := map_count v + 1 in
    if map_count >=? acc_map_count (config a) then
      let map_count := 0 in
      emit (WriteTriangleMesh (interim_map_file a) global_mesh) ;;
      ret {| mesh := mesh; local_map := local_map; global_mesh := global_mesh;
             scan_count := scan_count; map_count := map_count |}
    else
      ret {| mesh := mesh; local_map := local_map; global_mesh := global_mesh;
             scan_count := scan_count; map_count := map_count |}
  else
    ret {| mesh := mesh v; local_map := local_map; global_mesh := global_mesh v;
           scan_count := scan_count; map_count := map_count v |}.

(** Lines 142-175. *)
Definition loop (a : Args) (idxs : list Z) (v : Vars) : M Vars :=
  for_each idxs (loop_body a) v.

(** Lines 111-181.  The [deque(maxlen=config.acc_frame_count)] of line 133
    raises for a count that is negative or too large. *)
Definition main (a : Args) : M unit :=
  emit (SaveConfig (config_file a)) ;;
  match Py.deque_maxlen_error (acc_frame_count (config a)) with
  | Some e => raise e
  | None => ret tt
  end ;;
  let mapping_enabled := negb (odometry_only a) in
  let pbar := get_progress_bar 1 (n_scans a) in
  v <- loop a pbar init ;;
  if mapping_enabled then
    emit (WriteTriangleMesh (final_map_file a) (global_mesh v))
  else ret tt.

End Main.

(** ** Triangle meshes *)

Module TriangleMesh.

(** A triangle is three indices into the vertex list. *)
Definition Triangle : Type := (nat * nat * nat)%type.

Definition vertex_set (t : Triangle) : list nat :=
  let '(i, j, k) := t in [i; j; k].

Definition subset (l1 l2 : list nat) : bool :=
  forallb (fun x => existsb (Nat.eqb x) l2) l1.

(** Two triangles are duplicates of each other when they have the same
    vertex set. *)
Definition same_vertex_set (t u : Triangle) : bool :=
  subset (vertex_set t) (vertex_set u) && subset (vertex_set u) (vertex_set t).

Definition shift (n : nat) (t : Triangle) : Triangle :=
  let '(i, j, k) := t in ((n + i)%nat, (n + j)%nat, (n + k)%nat).

(** Keep, of every class of [same] elements, the one that comes first. *)
Fixpoint keep_first {A : Type} (same : A -> A -> bool) (l : list A) : list A :=
  match l with
  | [] => []
  | x :: l' => x :: filter (fun y => negb (same x y)) (keep_first same l')
  end.

Section Ops.

Context {V : Type}.
Variable V_eq_dec : forall x y : V, {x = y} + {x <> y}.

Record t : Type := { vertices : list V; triangles : list Triangle }.

Definition coincident (x y : V) : bool :=
  if V_eq_dec x y then true else false.

Fixpoint index_of (v : V) (l : list V) : option nat :=
  match l with
  | [] => None
  | x :: l' => if V_eq_dec v x then Some O else option_map S (index_of v l')
  end.

(** The index, among the merged vertices [new], of the vertex that index
    [i] named in [old]; an index that names no vertex is left as it is. *)
Definition reindex (old new : list V) (i : nat) : nat :=
  match nth_error old i with
  | Some v => match index_of v new with Some j => j | None => i end
  | None => i
  end.

Definition reindex_triangle (old new : list V) (t : Triangle) : Triangle :=
  let '(i, j, k) := t in (reindex old new i, reindex old new j, reindex old new k).

(** Modelled from the spec: [o3d.geometry.TriangleMesh()], the mesh with
    no vertex and no triangle; Open3D is not among the sources. *)
Definition empty : t := {| vertices := []; triangles := [] |}.

(** Modelled from the spec: [global_mesh += mesh] of Open3D, step 1 of the
    fusion: the patch's vertices and triangles are appended, the appended
    triangles naming the appended vertices (disjoint union of the two
    representations, no alignment). *)
Definition union (g p : t) : t :=
  {| vertices := vertices g ++ vertices p;
     triangles := triangles g ++ map (shift (List.length (vertices g))) (triangles p) |}.

(** Modelled from the spec: [remove_duplicated_triangles] of Open3D, step
    2 of the fusion: a triangle with the same vertex set as a triangle
    already present is removed. *)
Definition remove_duplicated_triangles (m : t) : t :=
  {| vertices := vertices m;
     triangles := keep_first same_vertex_set (triangles m) |}.

(** Modelled from the spec: [remove_duplicated_vertices] of Open3D, step 3
    of the fusion: coincident vertices are merged into the first of them
    and the triangles are re-indexed accordingly. *)
Definition remove_duplicated_vertices (m : t) : t :=
  let merged := keep_first coincident (vertices m) in
  {| vertices := merged;
     triangles := map (reindex_triangle (vertices m) merged) (triangles m) |}.

(** The deduplication pass of lines 167-168. *)
Definition dedup (m : t) : t :=
  remove_duplicated_vertices (remove_duplicated_triangles m).

(** Lines 166-168 on this representation. *)
Definition fuse (g p : t) : t := dedup (union g p).

(** The vertices of [m] as a set, and its triangles as a set of
    triangles taken up to [same_vertex_set]. *)
Definition same_vertices (m m' : t) : Prop :=
  forall v, In v (vertices m) <-> In v (vertices m').

Definition has_triangle (m : t) (u : Triangle) : Prop :=
  exists u', In u' (triangles m) /\ same_vertex_set u' u = true.

Definition same_triangles (m m' : t) : Prop :=
  forall u, has_triangle m u <-> has_triangle m' u.

End Ops.

Arguments t V : clear implicits.

End TriangleMesh.

(** ** Reading a trace

    The properties of a run are stated on what can be read off its trace. *)

Inductive Mark : Type :=
| Pass       (* a reconstruction pass *)
| Interim    (* a write to the "_iterm" checkpoint file *)
| Final.     (* a write to the final map file *)

Section Observations.

Context {B : Backend}.

(** Frame indices pushed into the window buffer, in order. *)
Definition appended (tr : list Event) : list Z :=
  flat_map (fun e => match e with Append idx _ => [idx] | _ => [] end) tr.

(** The frames pushed into the window buffer, in order. *)
Definition pushed (tr : list Event) : list PointCloud :=
  flat_map (fun e => match e with Append _ scan => [scan] | _ => [] end) tr.

(** Frame indices at which the reconstruction trigger fired. *)
Definition fired (tr : list Event) : list Z :=
  flat_map (fun e => match e with CreateMesh idx _ => [idx] | _ => [] end) tr.

(** The windows handed to the reconstructor. *)
Definition windows (tr : list Event) : list (list PointCloud) :=
  flat_map (fun e => match e with CreateMesh _ w => [w] | _ => [] end) tr.

(** The candidate patches the reconstructor returned. *)
Definition patches (a : Args) (tr : list Event) : list Mesh :=
  map (fun w => create_mesh_from_map w (config a)) (windows tr).

(** Mesh files written, with their content. *)
Definition mesh_writes (tr : list Event) : list (string * Mesh) :=
  flat_map (fun e => match e with WriteTriangleMesh p m => [(p, m)] | _ => [] end) tr.

Definition mark_of (a : Args) (e : Event) : list Mark :=
  match e with
  | CreateMesh _ _ => [Pass]
  | WriteTriangleMesh p _ =>
      if String.eqb p (interim_map_file a) then [Interim]
      else if String.eqb p (final_map_file a) then [Final]
      else []
  | _ => []
  end.

(** Passes and mesh writes of a trace, in order. *)
Definition marks (a : Args) (tr : list Event) : list Mark :=
  flat_map (mark_of a) tr.

(** The three fusion steps the spec lists, in its order: union with the
    patch, triangle deduplication, vertex deduplication. *)
Definition fusion (g p : Mesh) : Mesh :=
  remove_duplicated_vertices (remove_duplicated_triangles (mesh_iadd g p)).

(** The Global Mesh obtained from [g] by fusing the patches of [tr]. *)
Definition fused (a : Args) (g : Mesh) (tr : list Event) : Mesh :=
  fold_left fusion (patches a tr) g.

(** Every mesh write of [tr] carries the Global Mesh as fused so far,
    starting from [g]. *)
Fixpoint writes_current (a : Args) (g : Mesh) (tr : list Event) : Prop :=
  match tr with
  | [] => True
  | CreateMesh _ w :: tr' =>
      writes_current a (fusion g (create_mesh_from_map w (config a))) tr'
  | WriteTriangleMesh _ m :: tr' => m = g /\ writes_current a g tr'
  | _ :: tr' => writes_current a g tr'
  end.

(** The counter invariant of the loop. *)
Definition counters_in_range (a : Args) (v : Vars) : Prop :=
  0 <= scan_count v < acc_frame_count (config a) /\
  0 <= map_count v < acc_map_count (config a).

End Observations.

(** The last [n] elements of [l] (all of [l] when it is shorter). *)
Definition last_n {A : Type} (n : nat) (l : list A) : list A :=
  skipn (List.length l - n) l.

(** The checkpoint cadence the spec asks for: [n] passes, the [j]-th followed
    by an interim write exactly when [j] is a multiple of [c]. *)
Definition cadence (c : Z) (n : nat) : list Mark :=
  flat_map (fun j => if Z.of_nat j mod c =? 0 then [Pass; Interim] else [Pass])
           (seq 1 n).

(** ** A small concrete back end

    Point clouds are lists of integer points, a pose is a translation, and the
    reconstructor is a stub that spans one triangle over every three
    consecutive points of the window; meshes are [TriangleMesh.t]. *)

Module Demo.

Definition Point : Type := (Z * Z * Z)%type.

Definition Point_eq_dec (p q : Point) : {p = q} + {p <> q}.
Proof. repeat decide equality. Defined.

Record Settings : Type := {
  dir : string;
  frames : Z;
  maps : Z
}.

Definition translate (d p : Point) : Point :=
  let '(dx, dy, dz) := d in
  let '(x, y, z) := p in (x + dx, y + dy, z + dz).

(** The scan stored under [name]: three points whose first coordinate is
    the length of the name. *)
Definition scan_of_name (name : string) : list Point :=
  let n := Z.of_nat (String.length name) in [(n, 0, 0); (n, 1, 0); (n, 0, 1)].

Fixpoint stub_triangles (first : nat) (points : nat) : list TriangleMesh.Triangle :=
  match points with
  | S (S (S points')) =>
      (first, S first, S (S first)) :: stub_triangles (S (S (S first))) points'
  | _ => []
  end.

Definition stub_reconstruct (window : list (list Point)) (_ : Settings)
  : TriangleMesh.t Point :=
  let points := List.concat window in
  {| TriangleMesh.vertices := points;
     TriangleMesh.triangles := stub_triangles 0 (List.length points) |}.

#[export] Instance backend : Backend := {|
  Config := Settings;
  out_dir := dir;
  acc_frame_count := frames;
  acc_map_count := maps;
  PointCloud := list Point;
  Pose := Point;
  Mesh := TriangleMesh.t Point;
  read_point_cloud := scan_of_name;
  preprocess := fun scan _ => scan;
  transform := fun scan pose => map (translate pose) scan;
  create_mesh_from_map := stub_reconstruct;
  TriangleMesh_new := TriangleMesh.empty;
  mesh_iadd := TriangleMesh.union;
  remove_duplicated_triangles := TriangleMesh.remove_duplicated_triangles;
  remove_duplicated_vertices := TriangleMesh.remove_duplicated_vertices Point_eq_dec
|}.

(** [n] scan names of lengths 1, 2, ..., [n], and [n] poses. *)
Fixpoint names (n : nat) : list string :=
  match n with
  | O => []
  | S n' => names n' ++ [String.concat "" (repeat "s" n)]
  end.

Definition origins (n : nat) : list Point := repeat (0, 0, 0) n.

Definition args (n : nat) (k c : Z) (n_scans_opt : Z) (odometry_only : bool) : Args :=
  {| config := {| dir := "out"; frames := k; maps := c |};
     map_name := "ply_depth_10_gicp_mesh";
     scan_names := names n;
     poses := origins n;
     n_scans_opt := n_scans_opt;
     odometry_only := odometry_only |}.

(** Ten scans, accumulation count 4, checkpoint interval 2, the whole
    sequence, mapping enabled. *)
Definition ten_scans : Args := args 10 4 2 (-1) false.

(** Three scans in odometry-only mode. *)
Definition odometry_run : Args := args 3 2 1 (-1) true.

(** Three scans, mapping enabled. *)
Definition three_scans : Args := args 3 4 2 (-1) false.

(** A dataset directory without any scan. *)
Definition no_scans : Args := args 0 4 2 (-1) false.

(** Five scans, accumulation count 2, checkpoint interval 2, and what the
    loop of that run leaves behind: its trace and its variables. *)
Definition five_scans : Args := args 5 2 2 (-1) false.

Definition five_scans_trace : list Event :=
  Eval vm_compute in fst (loop five_scans (get_progress_bar 1 5) init).

Definition five_scans_vars : Vars :=
  Eval vm_compute in
    match snd (loop five_scans (get_progress_bar 1 5) init) with
    | Done v => v
    | Raised _ => init
    end.

(** Two triangles over the same three points, the second one naming a
    second copy of the first point: what two overlapping windows leave in
    the Global Mesh after the union step. *)
Definition overlap_mesh : TriangleMesh.t Point :=
  {| TriangleMesh.vertices := [(0, 0, 0); (1, 0, 0); (0, 1, 0); (0, 0, 0)];
     TriangleMesh.triangles := [(0, 1, 2); (3, 1, 2)]%nat |}.

(** The same two triangles over three distinct vertices. *)
Definition merged_mesh : TriangleMesh.t Point :=
  {| TriangleMesh.vertices := [(0, 0, 0); (1, 0, 0); (0, 1, 0)];
     TriangleMesh.triangles := [(0, 1, 2); (0, 1, 2)]%nat |}.

End Demo.

(** ** Start-up: run identity and scan directory

    Lines 90, 103-109 and 120-124 of [main]. *)

Module Startup.

(** [if s:] for a value that is [None] or a string: [None] and the empty
    string are false. *)
Definition truthy (s : option string) : bool :=
  match s with
  | Some (String _ _) => true
  | _ => false
  end.

Definition text (s : option string) : string :=
  match s with
  | Some s' => s'
  | None => ""
  end.

(** What the run identity is made of: [Path(dataset).name], [--sequence],
    [str(config.depth)], the truth value of [config.min_density],
    [config.method] and [config.strategy]. *)
Record Identity : Type := {
  dataset_name : string;
  sequence : option string;
  depth : string;
  min_density : bool;
  method : string;
  strategy : string
}.

(** Lines 103-109. *)
Definition map_name_of (i : Identity) : string :=
  let map_name := dataset_name i in
  let map_name :=
    if truthy (sequence i) then (map_name ++ ("_" ++ text (sequence i)))%string
    else map_name in
  let map_name := (map_name ++ ("_depth_" ++ depth i))%string in
  let map_name := (map_name ++ (if min_density i then "_cropped" else ""))%string in
  let map_name := (map_name ++ ("_" ++ method i))%string in
  let map_name := (map_name ++ ("_" ++ strategy i))%string in
  map_name.

(** [os.path.join(a, *ps)] on a POSIX system. *)
Definition os_path_join_all (a : string) (ps : list string) : string :=
  fold_left Py.os_path_join ps a.

(** Line 90: [dataset = os.path.join(dataset, "")]. *)
Definition dataset_dir (dataset : string) : string :=
  Py.os_path_join dataset "".

(** Lines 120-123, after line 90. *)
Definition scans_dir (dataset : string) (sequence : option string) : string :=
  let dataset := dataset_dir dataset in
  if truthy sequence
  then os_path_join_all dataset ["sequences"; text sequence; "velodyne"; ""]
  else os_path_join_all dataset [].

(** The pattern handed to [glob.glob] on line 124. *)
Definition scan_pattern (dataset : string) (sequence : option string) : string :=
  (scans_dir dataset sequence ++ "*.ply")%string.

End Startup.

(** ** More readings of a trace *)

Definition is_interim (m : Mark) : bool :=
  match m with
  | Interim => true
  | _ => false
  end.

Section Windows.

Context {B : Backend}.


(** The trigger schedule of a run over frames [1 .. n-1] with accumulation
    count [k]: the multiples of [k] and the last frame. *)
Definition schedule (k n : Z) : list Z :=
  filter (fun idx => (idx mod k =? 0) || (idx =? n - 1)) (Py.range 1 n).

End Windows.

(** ** The back end over the triangle meshes above

    Everything but the mesh is left to the collaborators: the configuration,
    the point clouds and the reconstructor. *)

Record Collaborators (M : Type) : Type := {
  c_Config : Type;
  c_out_dir : c_Config -> string;
  c_acc_frame_count : c_Config -> Z;
  c_acc_map_count : c_Config -> Z;
  c_PointCloud : Type;
  c_Pose : Type;
  c_read_point_cloud : string -> c_PointCloud;
  c_preprocess : c_PointCloud -> c_Config -> c_PointCloud;
  c_transform : c_PointCloud -> c_Pose -> c_PointCloud;
  c_create_mesh_from_map : list c_PointCloud -> c_Config -> M
}.

Definition mesh_backend {V : Type} (V_eq_dec : forall x y : V, {x = y} + {x <> y})
           (c : Collaborators (TriangleMesh.t V)) : Backend :=
  {| Config := c_Config _ c;
     out_dir := c_out_dir _ c;
     acc_frame_count := c_acc_frame_count _ c;
     acc_map_count := c_acc_map_count _ c;
     PointCloud := c_PointCloud _ c;
     Pose := c_Pose _ c;
     Mesh := TriangleMesh.t V;
     read_point_cloud := c_read_point_cloud _ c;
     preprocess := c_preprocess _ c;
     transform := c_transform _ c;
     create_mesh_from_map := c_create_mesh_from_map _ c;
     TriangleMesh_new := TriangleMesh.empty;
     mesh_iadd := TriangleMesh.union;
     remove_duplicated_triangles := TriangleMesh.remove_duplicated_triangles;
     remove_duplicated_vertices := TriangleMesh.remove_duplicated_vertices V_eq_dec |}.

(** ** More concrete invocations *)

Module Cases.

(** Three scans on disk, five asked for. *)
Definition overlong : Args := Demo.args 3 2 1 5 false.

(** Four scans on disk, [--n_scans 1]. *)
Definition single : Args := Demo.args 4 2 1 1 false.

(** Accumulation count 0. *)
Definition no_window : Args := Demo.args 4 0 2 (-1) false.

(** Checkpoint interval 0. *)
Definition every_pass : Args := Demo.args 5 2 0 (-1) false.

(** Seven scans, accumulation count 3, checkpoint interval 2. *)
Definition seven_scans : Args := Demo.args 7 3 2 (-1) false.

Definition kitti_00 : Startup.Identity :=
  {| Startup.dataset_name := "ply";
     Startup.sequence := Some "00";
     Startup.depth := "10";
     Startup.min_density := true;
     Startup.method := "gicp";
     Startup.strategy := "mesh" |}.

(** A run whose map name is built from [kitti_00]. *)
Definition kitti_run : Args :=
  with_map_name (Startup.map_name_of kitti_00) (Demo.args 3 4 2 (-1) false).

(** The collaborators of [Demo.backend]. *)
Definition demo_collaborators : Collaborators (TriangleMesh.t Demo.Point) :=
  {| c_Config := Demo.Settings;
     c_out_dir := Demo.dir;
     c_acc_frame_count := Demo.frames;
     c_acc_map_count := Demo.maps;
     c_PointCloud := list Demo.Point;
     c_Pose := Demo.Point;
     c_read_point_cloud := Demo.scan_of_name;
     c_preprocess := fun scan _ => scan;
     c_transform := fun scan pose => map (Demo.translate pose) scan;
     c_create_mesh_from_map := Demo.stub_reconstruct |}.

(** Four scans with accumulation count 2: the trigger fires at frame 2 and
    at the last frame, 3, whose window still holds frame 2.  [overlap_before]
    are the variables after frames 1 and 2, [overlap_trace] and
    [overlap_after] what the iteration of frame 3 does and leaves. *)
Definition overlap_run : @Args (mesh_backend Demo.Point_eq_dec demo_collaborators) :=
  Demo.args 4 2 1 (-1) false.

Definition overlap_before : @Vars (mesh_backend Demo.Point_eq_dec demo_collaborators) :=
  Eval vm_compute in
    match snd (loop overlap_run [1; 2] init) with
    | Done v => v
    | Raised _ => init
    end.

Definition overlap_trace
  : list (@Event (mesh_backend Demo.Point_eq_dec demo_collaborators)) :=
  Eval vm_compute in fst (loop_body overlap_run 3 overlap_before).

Definition overlap_after : @Vars (mesh_backend Demo.Point_eq_dec demo_collaborators) :=
  Eval vm_compute in
    match snd (loop_body overlap_run 3 overlap_before) with
    | Done v => v
    | Raised _ => init
    end.

(** One triangle over the points P, Q, R, and the same triangle with its
    points listed as P, R, Q. *)
Definition patch_pqr : TriangleMesh.t Demo.Point :=
  {| TriangleMesh.vertices := [(0, 0, 0); (1, 0, 0); (0, 1, 0)];
     TriangleMesh.triangles := [(0, 1, 2)]%nat |}.

Definition patch_prq : TriangleMesh.t Demo.Point :=
  {| TriangleMesh.vertices := [(0, 0, 0); (0, 1, 0); (1, 0, 0)];
     TriangleMesh.triangles := [(0, 1, 2)]%nat |}.

(** The Global Mesh after fusing [patch_pqr], then [patch_prq]. *)
Definition two_orientations : TriangleMesh.t Demo.Point :=
  fold_left (TriangleMesh.fuse Demo.Point_eq_dec) [patch_pqr; patch_prq]
            TriangleMesh.empty.

(** A mesh with two coincident vertices on which one deduplication pass is
    enough. *)
Definition spare_copy_mesh : TriangleMesh.t Demo.Point :=
  {| TriangleMesh.vertices := [(0, 0, 0); (1, 0, 0); (0, 1, 0); (0, 0, 0)];
     TriangleMesh.triangles := [(0, 1, 2)]%nat |}.

End Cases.

(** * Properties *)

(** ** Lists, ranges and the bounded deque *)

Lemma tl_skipn {A : Type} (n : nat) (l : list A) : tl (skipn n l) = skipn (S n) l.
Proof.
  revert l; induction n as [|n IH]; intros l.
  - destruct l; reflexivity.
  - destruct l as [|x l]; [reflexivity|]. cbn [skipn]. apply IH.
Qed.

Lemma tl_app_nonempty {A : Type} (l l' : list A) : l <> [] -> tl (l ++ l') = tl l ++ l'.
Proof. destruct l; [congruence | reflexivity]. Qed.

Lemma last_n_length {A : Type} (n : nat) (l : list A) :
  List.length (last_n n l) = Nat.min n (List.length l).
Proof. unfold last_n. rewrite length_skipn. lia. Qed.

Lemma last_n_all {A : Type} (n : nat) (l : list A) :
  (List.length l <= n)%nat -> last_n n l = l.
Proof.
  intros H. unfold last_n. replace (List.length l - n)%nat with 0%nat by lia. reflexivity.
Qed.

Lemma last_n_snoc {A : Type} (n : nat) (l : list A) (x : A) :
  last_n (S n) (l ++ [x]) = last_n n l ++ [x].
Proof.
  unfold last_n. rewrite length_app. simpl.
  replace (List.length l + 1 - S n)%nat with (List.length l - n)%nat by lia.
  rewrite skipn_app.
  replace (List.length l - n - List.length l)%nat with 0%nat by lia. reflexivity.
Qed.

Lemma range_cons (a b : Z) : a < b -> Py.range a b = a :: Py.range (a + 1) b.
Proof.
  intros H. unfold Py.range.
  replace (Z.to_nat (b - a)) with (S (Z.to_nat (b - (a + 1)))) by lia.
  cbn [seq map]. rewrite <- seq_shift, map_map. f_equal; [lia|].
  apply map_ext. intros k. lia.
Qed.

Lemma range_empty (a b : Z) : b <= a -> Py.range a b = [].
Proof.
  intros H. unfold Py.range. replace (Z.to_nat (b - a)) with 0%nat by lia. reflexivity.
Qed.

Lemma range_In (a b i : Z) : In i (Py.range a b) <-> a <= i < b.
Proof.
  unfold Py.range. rewrite in_map_iff. split.
  - intros (k & <- & Hk). apply in_seq in Hk. lia.
  - intros H. exists (Z.to_nat (i - a)). split; [lia|]. apply in_seq. lia.
Qed.

(** A deque of capacity [k] that received the elements [xs] holds the last
    [min (len xs) k] of them, in push order. *)
Lemma deque_holds_last {A : Type} (k : Z) (xs : list A) :
  0 <= k ->
  fold_left (Py.deque_append k) xs [] =
  last_n (Z.to_nat (Z.min (Py.len xs) k)) xs.
Proof.
  intros Hk. induction xs as [|x xs IH] using rev_ind; [reflexivity|].
  rewrite fold_left_app. cbn [fold_left]. rewrite IH. clear IH.
  unfold Py.deque_append, Py.len. rewrite !length_app, last_n_length. cbn [List.length].
  destruct (Z.ltb_spec k (Z.of_nat (Nat.min (Z.to_nat (Z.min (Z.of_nat (List.length xs)) k))
                                            (List.length xs) + 1))) as [Hfull|Hroom].
  - assert (Hlen : k <= Z.of_nat (List.length xs)) by lia.
    replace (Z.to_nat (Z.min (Z.of_nat (List.length xs)) k)) with (Z.to_nat k) by lia.
    replace (Z.to_nat (Z.min (Z.of_nat (List.length xs + 1)) k)) with (Z.to_nat k) by lia.
    destruct (Z.to_nat k) as [|n] eqn:En.
    + unfold last_n. rewrite length_app. cbn [List.length].
      rewrite !Nat.sub_0_r, skipn_all.
      replace (List.length xs + 1)%nat with (List.length (xs ++ [x]))
        by (rewrite length_app; reflexivity).
      rewrite skipn_all. reflexivity.
    + rewrite last_n_snoc. rewrite tl_app_nonempty.
      * f_equal. unfold last_n. rewrite tl_skipn.
        replace (S (List.length xs - S n)) with (List.length xs - n)%nat by lia.
        reflexivity.
      * intros E. apply (f_equal (@List.length A)) in E.
        rewrite last_n_length in E. cbn [List.length] in E. lia.
  - assert (Hlen : Z.of_nat (List.length xs) < k) by lia.
    rewrite (last_n_all _ xs) by lia.
    rewrite last_n_all; [reflexivity|]. rewrite length_app. cbn. lia.
Qed.

Lemma deque_maxlen_accepted (k : Z) :
  Py.deque_maxlen_error k = None <-> 0 <= k <= Py.ssize_t_max.
Proof.
  unfold Py.deque_maxlen_error.
  destruct (Z.ltb_spec k 0); [split; [discriminate | lia]|].
  destruct (Z.ltb_spec Py.ssize_t_max k); split; try discriminate; try lia; reflexivity.
Qed.

(** ** File names *)

Lemma string_length_append (s1 s2 : string) :
  String.length (s1 ++ s2)%string = (String.length s1 + String.length s2)%nat.
Proof. induction s1 as [|c s1 IH]; cbn; [reflexivity | now rewrite IH]. Qed.

Lemma starts_with_sep_suffix (m : string) :
  Py.starts_with_sep (m ++ "_iterm.ply")%string = Py.starts_with_sep (m ++ ".ply")%string.
Proof. destruct m; reflexivity. Qed.

(** The checkpoint file and the final map file are different files. *)
Lemma join_iterm_distinct (d m : string) :
  Py.os_path_join d (m ++ ".ply")%string <> Py.os_path_join d (m ++ "_iterm.ply")%string.
Proof.
  unfold Py.os_path_join. rewrite starts_with_sep_suffix.
  intros E. apply (f_equal String.length) in E.
  destruct (Py.starts_with_sep (m ++ ".ply")%string);
    [|destruct ((String.length d =? 0)%nat || Py.ends_with_sep d)];
    repeat rewrite string_length_append in E; cbn in E; lia.
Qed.

(** Two relative names, or two absolute ones, joined to the same directory
    get the same prefix. *)
Lemma join_common_prefix (d b1 b2 : string) :
  Py.starts_with_sep b1 = Py.starts_with_sep b2 ->
  exists p, Py.os_path_join d b1 = (p ++ b1)%string /\
            Py.os_path_join d b2 = (p ++ b2)%string.
Proof.
  intros H. unfold Py.os_path_join. rewrite H.
  destruct (Py.starts_with_sep b2); [exists ""; split; reflexivity|].
  destruct ((String.length d =? 0)%nat || Py.ends_with_sep d);
    [exists d; split; reflexivity|].
  assert (Hassoc : forall s b, (d ++ s ++ b = (d ++ s) ++ b)%string).
  { intros s b. clear. induction d as [|c d IH]; cbn; [reflexivity | now rewrite IH]. }
  exists (d ++ "/")%string. split; apply Hassoc.
Qed.

(** ** The monad and the loop *)

Section LoopFacts.

Context {B : Backend}.

Lemma bind_Done {A C : Type} (m : M A) (k : A -> M C) t1 x :
  m = (t1, Done x) -> bind m k = (t1 ++ fst (k x), snd (k x)).
Proof. intros ->. unfold bind. destruct (k x). reflexivity. Qed.

Lemma bind_Raised {A C : Type} (m : M A) (k : A -> M C) t1 e :
  m = (t1, Raised e) -> bind m k = (t1, Raised e).
Proof. intros ->. reflexivity. Qed.

Lemma for_each_app {S : Type} (xs ys : list Z) (body : Z -> S -> M S) (st : S) :
  for_each (xs ++ ys) body st = bind (for_each xs body st) (for_each ys body).
Proof.
  revert st; induction xs as [|x xs IH]; intros st; cbn [for_each app].
  - unfold bind, ret. destruct (for_each ys body st). reflexivity.
  - unfold bind at 1 3. destruct (body x st) as [t1 [st1|e]]; [|reflexivity].
    rewrite IH. unfold bind.
    destruct (for_each xs body st1) as [t2 [st2|e]]; [|reflexivity].
    destruct (for_each ys body st2). rewrite app_assoc. reflexivity.
Qed.

(** Invariant rule for the loop: [I] relates the trace so far to the
    variables, [Q] is what holds of the trace when an iteration raises. *)
Lemma loop_invariant (a : Args) (I : list Event -> Vars -> Prop)
      (Q : list Event -> Prop) (idxs : list Z) :
  (forall tr v idx tr' v',
      In idx idxs -> I tr v -> loop_body a idx v = (tr', Done v') -> I (tr ++ tr') v') ->
  (forall tr v idx tr' e,
      In idx idxs -> I tr v -> loop_body a idx v = (tr', Raised e) -> Q (tr ++ tr')) ->
  forall tr0 v0 tr out,
    I tr0 v0 ->
    loop a idxs v0 = (tr, out) ->
    match out with Done v => I (tr0 ++ tr) v | Raised _ => Q (tr0 ++ tr) end.
Proof.
  unfold loop.
  induction idxs as [|idx idxs IH]; intros Hstep Hfail tr0 v0 tr out HI Hrun;
    cbn [for_each] in Hrun.
  - inversion Hrun; subst. rewrite app_nil_r. exact HI.
  - destruct (loop_body a idx v0) as [t1 [v1|e]] eqn:Hbody.
    + rewrite (bind_Done _ _ _ _ eq_refl) in Hrun.
      destruct (for_each idxs (loop_body a) v1) as [t2 out2] eqn:Hrest.
      cbn in Hrun. inversion Hrun; subst.
      rewrite app_assoc. eapply IH; [| |  |exact Hrest].
      * intros; eapply Hstep; eauto. right; assumption.
      * intros; eapply Hfail; eauto. right; assumption.
      * eapply Hstep; eauto. left; reflexivity.
    + rewrite (bind_Raised _ _ _ _ eq_refl) in Hrun. inversion Hrun; subst.
      eapply Hfail; eauto. left; reflexivity.
Qed.

End LoopFacts.

(** ** One iteration *)

(** Case analysis of one iteration: which subscripts succeed, whether the
    trigger fires, whether a checkpoint is due. *)
Ltac body_cases H :=
  unfold loop_body, subscript in H;
  repeat match type of H with
         | context [match Py.index ?l ?i with _ => _ end] =>
             let E := fresh "Hidx" in destruct (Py.index l i) eqn:E
         | context [if ?b then _ else _] =>
             let E := fresh "Hif" in destruct b eqn:E
         end;
  cbn [bind ret emit raise app fst snd] in H;
  inversion H; subst; clear H.

(** Boolean tests of the script as propositions. *)
Ltac tests :=
  repeat match goal with
         | H : (_ || _) = true |- _ => apply orb_true_iff in H; destruct H
         | H : (_ || _) = false |- _ => apply orb_false_iff in H; destruct H
         | H : (_ >=? _) = true |- _ => rewrite Z.geb_le in H
         | H : (_ >=? _) = false |- _ => rewrite Z.geb_leb, Z.leb_gt in H
         | H : (_ =? _) = true |- _ => apply Z.eqb_eq in H
         | H : (_ =? _) = false |- _ => apply Z.eqb_neq in H
         | H : (_ <? _) = true |- _ => apply Z.ltb_lt in H
         | H : (_ <? _) = false |- _ => apply Z.ltb_ge in H
         end.

Section ControllerFacts.

Context {B : Backend}.

Lemma counters_step (a : Args) (idx : Z) (v : Vars) tr' v' :
  1 <= acc_frame_count (config a) ->
  1 <= acc_map_count (config a) ->
  counters_in_range a v ->
  loop_body a idx v = (tr', Done v') ->
  counters_in_range a v'.
Proof.
  intros HK HC [Hs Hm] Hbody. unfold counters_in_range.
  body_cases Hbody; cbn [scan_count map_count]; tests; lia.
Qed.

(** The trigger rule of lines 157-159. *)
Lemma trigger_rule (a : Args) (idx : Z) (v : Vars) tr' v' :
  loop_body a idx v = (tr', Done v') ->
  (fired tr' = [idx] /\ scan_count v' = 0 /\
   (acc_frame_count (config a) <= scan_count v + 1 \/ idx = n_scans a - 1))
  \/
  (fired tr' = [] /\ scan_count v' = scan_count v + 1 /\
   scan_count v + 1 < acc_frame_count (config a) /\ idx <> n_scans a - 1).
Proof.
  intros Hbody. body_cases Hbody; cbn; tests;
    solve [left; repeat split; auto | right; repeat split; auto].
Qed.

(** The checkpoint rule of lines 170-175. *)
Lemma checkpoint_rule (a : Args) (idx : Z) (v : Vars) tr' v' :
  loop_body a idx v = (tr', Done v') ->
  fired tr' = [idx] ->
  (acc_map_count (config a) <= map_count v + 1 /\ map_count v' = 0 /\
   mesh_writes tr' = [(interim_map_file a, global_mesh v')])
  \/
  (map_count v + 1 < acc_map_count (config a) /\ map_count v' = map_count v + 1 /\
   mesh_writes tr' = []).
Proof.
  intros Hbody. body_cases Hbody; cbn; tests; intros Hf;
    solve [left; repeat split; auto | right; repeat split; auto | discriminate].
Qed.

Lemma window_step (a : Args) (idx : Z) (v : Vars) tr' v' :
  loop_body a idx v = (tr', Done v') ->
  exists scan, pushed tr' = [scan] /\ appended tr' = [idx] /\
               local_map v' = Py.deque_append (acc_frame_count (config a)) (local_map v) scan.
Proof.
  intros Hbody. body_cases Hbody; cbn; eexists; repeat split.
Qed.

Lemma failed_step (a : Args) (idx : Z) (v : Vars) tr' e :
  loop_body a idx v = (tr', Raised e) ->
  e = Py.IndexError /\ appended tr' = [] /\ fired tr' = [] /\ mesh_writes tr' = [] /\
  marks a tr' = [] /\
  (Py.index (scan_names a) idx = None \/ Py.index (poses a) idx = None).
Proof.
  intros Hbody. body_cases Hbody; cbn; auto 10.
Qed.

End ControllerFacts.

(** ** Whole runs of the loop *)

Section RunFacts.

Context {B : Backend}.

Lemma appended_app (t1 t2 : list Event) : appended (t1 ++ t2) = appended t1 ++ appended t2.
Proof. apply flat_map_app. Qed.

Lemma pushed_app (t1 t2 : list Event) : pushed (t1 ++ t2) = pushed t1 ++ pushed t2.
Proof. apply flat_map_app. Qed.

Lemma fired_app (t1 t2 : list Event) : fired (t1 ++ t2) = fired t1 ++ fired t2.
Proof. apply flat_map_app. Qed.

Lemma windows_app (t1 t2 : list Event) : windows (t1 ++ t2) = windows t1 ++ windows t2.
Proof. apply flat_map_app. Qed.

Lemma mesh_writes_app (t1 t2 : list Event) :
  mesh_writes (t1 ++ t2) = mesh_writes t1 ++ mesh_writes t2.
Proof. apply flat_map_app. Qed.

Lemma marks_app (a : Args) (t1 t2 : list Event) :
  marks a (t1 ++ t2) = marks a t1 ++ marks a t2.
Proof. apply flat_map_app. Qed.

Lemma pushed_length (tr : list Event) :
  List.length (pushed tr) = List.length (appended tr).
Proof.
  induction tr as [|e tr IH]; [reflexivity|].
  destruct e; cbn; auto.
Qed.

Lemma fired_length (tr : list Event) :
  List.length (windows tr) = List.length (fired tr).
Proof.
  induction tr as [|e tr IH]; [reflexivity|].
  destruct e; cbn; auto.
Qed.

(** The loop pushes the frames of its index list, in order, up to the
    iteration that raises, if one does. *)
Lemma loop_appended (a : Args) (idxs : list Z) (v0 : Vars) tr out :
  loop a idxs v0 = (tr, out) ->
  exists rest, idxs = appended tr ++ rest /\
               match out with Done _ => rest = [] | Raised _ => rest <> [] end.
Proof.
  unfold loop. revert v0 tr out.
  induction idxs as [|idx idxs IH]; intros v0 tr out Hrun; cbn [for_each] in Hrun.
  - inversion Hrun; subst. exists []. split; reflexivity.
  - destruct (loop_body a idx v0) as [t1 [v1|e]] eqn:Hbody.
    + rewrite (bind_Done _ _ _ _ eq_refl) in Hrun.
      destruct (for_each idxs (loop_body a) v1) as [t2 out2] eqn:Hrest.
      cbn in Hrun. inversion Hrun; subst.
      destruct (IH _ _ _ Hrest) as (rest & Hidxs & Hout).
      destruct (window_step _ _ _ _ _ Hbody) as (scan & _ & Happ & _).
      exists rest. rewrite appended_app, Happ. cbn. split; [congruence | exact Hout].
    + rewrite (bind_Raised _ _ _ _ eq_refl) in Hrun. inversion Hrun; subst.
      destruct (failed_step _ _ _ _ _ Hbody) as (_ & Happ & _).
      exists (idx :: idxs). rewrite Happ. split; [reflexivity | discriminate].
Qed.

Lemma loop_appended_Done (a : Args) (idxs : list Z) (v0 : Vars) tr v :
  loop a idxs v0 = (tr, Done v) -> appended tr = idxs.
Proof.
  intros Hrun. destruct (loop_appended _ _ _ _ _ Hrun) as (rest & -> & ->).
  now rewrite app_nil_r.
Qed.

(** The window buffer is the deque that received every pushed frame. *)
Lemma loop_local_map (a : Args) (idxs : list Z) tr v :
  loop a idxs init = (tr, Done v) ->
  local_map v = fold_left (Py.deque_append (acc_frame_count (config a))) (pushed tr) [].
Proof.
  intros Hrun.
  apply (loop_invariant a
           (fun tr v => local_map v =
                        fold_left (Py.deque_append (acc_frame_count (config a))) (pushed tr) [])
           (fun _ => True) idxs) with (tr0 := []) (v0 := init) in Hrun; auto.
  intros tr1 v1 idx tr' v' _ HI Hbody.
  destruct (window_step _ _ _ _ _ Hbody) as (scan & Hp & _ & Hl).
  rewrite pushed_app, fold_left_app, <- HI, Hp, Hl. reflexivity.
Qed.

(** C4. For a window buffer of capacity K >= 1, after any number of
    iterations of the driving loop (firing or not: nothing ever clears the
    buffer) the buffer holds at most K frames, exactly K once K or more
    frames were pushed, and its content is the last min(pushes, K) pushed
    frames in push order; one frame is pushed per iteration. *)
Theorem window_buffer_holds_last_K (a : Args) (idxs : list Z) tr v :
  1 <= acc_frame_count (config a) ->
  loop a idxs init = (tr, Done v) ->
  Py.len (pushed tr) = Py.len idxs /\
  Py.len (local_map v) <= acc_frame_count (config a) /\
  (acc_frame_count (config a) <= Py.len (pushed tr) ->
   Py.len (local_map v) = acc_frame_count (config a)) /\
  local_map v =
    last_n (Z.to_nat (Z.min (Py.len (pushed tr)) (acc_frame_count (config a))))
           (pushed tr).
Proof.
  intros HK Hrun.
  pose proof (loop_local_map _ _ _ _ Hrun) as Hl.
  rewrite deque_holds_last in Hl by lia.
  pose proof (loop_appended_Done _ _ _ _ _ Hrun) as Ha.
  split; [|split; [|split]]; try exact Hl.
  - unfold Py.len. rewrite pushed_length, Ha. reflexivity.
  - rewrite Hl. unfold Py.len. rewrite last_n_length. lia.
  - intros Hfull. rewrite Hl. unfold Py.len in *. rewrite last_n_length. lia.
Qed.

(** C10. With accumulation count and checkpoint interval at least 1, after
    every iteration of the driving loop 0 <= scan_count < acc_frame_count
    and 0 <= map_count < acc_map_count; within the next iteration the
    incremented counters are not negative either, and a counter that
    reaches its bound is back to 0 when that iteration ends. *)
Theorem counter_invariant (a : Args) (idxs : list Z) tr v :
  1 <= acc_frame_count (config a) ->
  1 <= acc_map_count (config a) ->
  loop a idxs init = (tr, Done v) ->
  counters_in_range a v /\
  forall idx tr' v',
    loop_body a idx v = (tr', Done v') ->
    0 <= scan_count v + 1 /\ 0 <= map_count v + 1 /\
    (acc_frame_count (config a) <= scan_count v + 1 -> scan_count v' = 0) /\
    (fired tr' = [idx] -> acc_map_count (config a) <= map_count v + 1 ->
     map_count v' = 0) /\
    counters_in_range a v'.
Proof.
  intros HK HC Hrun.
  assert (Hv : counters_in_range a v).
  { apply (loop_invariant a (fun _ v => counters_in_range a v) (fun _ => True) idxs)
      with (tr0 := []) (v0 := init) in Hrun; auto.
    - intros; eapply counters_step; eauto.
    - unfold counters_in_range, init; cbn; lia. }
  split; [exact Hv|].
  intros idx tr' v' Hbody.
  pose proof (counters_step _ _ _ _ _ HK HC Hv Hbody) as Hv'.
  destruct Hv as [Hs Hm].
  split; [lia|]. split; [lia|]. split; [|split; [|exact Hv']].
  - intros Hreach.
    destruct (trigger_rule _ _ _ _ _ Hbody) as [(_ & H0 & _)|(_ & _ & Hlt & _)];
      [exact H0 | lia].
  - intros Hf Hreach.
    destruct (checkpoint_rule _ _ _ _ _ Hbody Hf) as [(_ & H0 & _)|(Hlt & _)];
      [exact H0 | lia].
Qed.


(** *** Fusion *)

Lemma patches_app (a : Args) (t1 t2 : list Event) :
  patches a (t1 ++ t2) = patches a t1 ++ patches a t2.
Proof. unfold patches. now rewrite windows_app, map_app. Qed.

Lemma fused_app (a : Args) (g : Mesh) (t1 t2 : list Event) :
  fused a g (t1 ++ t2) = fused a (fused a g t1) t2.
Proof. unfold fused. now rewrite patches_app, fold_left_app. Qed.

Lemma writes_current_app (a : Args) (g : Mesh) (t1 t2 : list Event) :
  writes_current a g (t1 ++ t2) <->
  writes_current a g t1 /\ writes_current a (fused a g t1) t2.
Proof.
  revert g. induction t1 as [|e t1 IH]; intros g.
  - cbn. tauto.
  - destruct e; cbn [app writes_current]; rewrite IH;
      unfold fused, patches; cbn [windows flat_map map app fold_left]; tauto.
Qed.

(** Lines 162-175: on firing, the patch is fused into the Global Mesh by
    the three steps, and a checkpoint written then carries the result. *)
Lemma fusion_step (a : Args) (idx : Z) (v : Vars) tr' v' :
  loop_body a idx v = (tr', Done v') ->
  global_mesh v' = fused a (global_mesh v) tr' /\
  writes_current a (global_mesh v) tr'.
Proof.
  intros Hbody. body_cases Hbody; cbn; auto.
Qed.

Lemma loop_fused (a : Args) (idxs : list Z) tr (out : Outcome Vars) :
  loop a idxs init = (tr, out) ->
  writes_current a TriangleMesh_new tr /\
  match out with
  | Done v => global_mesh v = fused a TriangleMesh_new tr
  | Raised _ => True
  end.
Proof.
  intros Hrun.
  apply (loop_invariant a
           (fun tr v => writes_current a TriangleMesh_new tr /\
                        global_mesh v = fused a TriangleMesh_new tr)
           (fun tr => writes_current a TriangleMesh_new tr) idxs)
    with (tr0 := []) (v0 := init) in Hrun.
  - destruct out; cbn [app] in Hrun; tauto.
  - intros tr1 v1 idx tr' v' _ [Hw Hg] Hbody.
    destruct (fusion_step _ _ _ _ _ Hbody) as [Hg' Hw'].
    rewrite writes_current_app, fused_app, <- Hg. auto.
  - intros tr1 v1 idx tr' e _ [Hw Hg] Hbody.
    rewrite writes_current_app. split; [exact Hw|].
    body_cases Hbody; cbn; exact I.
  - cbn. auto.
Qed.

(** After any number of iterations the Global Mesh is the empty mesh with
    the candidate patch of each firing fused into it, firing after firing. *)
Lemma loop_global_mesh_fold (a : Args) (idxs : list Z) tr v :
  loop a idxs init = (tr, Done v) ->
  List.length (patches a tr) = List.length (fired tr) /\
  global_mesh v =
    fold_left (fun g p => remove_duplicated_vertices
                            (remove_duplicated_triangles (mesh_iadd g p)))
              (patches a tr) TriangleMesh_new.
Proof.
  intros Hrun. split.
  - unfold patches. rewrite length_map. apply fired_length.
  - destruct (loop_fused _ _ _ _ Hrun) as [_ Hg]. exact Hg.
Qed.

(** *** Checkpoints *)

Lemma mod_succ_small (n c : Z) :
  1 <= c -> n mod c + 1 < c -> (n + 1) mod c = n mod c + 1.
Proof.
  intros Hc Hlt. rewrite <- Z.add_mod_idemp_l by lia.
  apply Z.mod_small. pose proof (Z.mod_pos_bound n c). lia.
Qed.

Lemma mod_succ_wrap (n c : Z) :
  1 <= c -> c <= n mod c + 1 -> (n + 1) mod c = 0.
Proof.
  intros Hc Hge. rewrite <- Z.add_mod_idemp_l by lia.
  pose proof (Z.mod_pos_bound n c).
  replace (n mod c + 1) with c by lia. apply Z_mod_same_full.
Qed.

Lemma cadence_succ (c : Z) (n : nat) :
  cadence c (S n) =
  cadence c n ++ (if Z.of_nat (S n) mod c =? 0 then [Pass; Interim] else [Pass]).
Proof.
  unfold cadence. rewrite seq_S, flat_map_app. cbn [flat_map].
  rewrite app_nil_r. reflexivity.
Qed.

Lemma marks_step (a : Args) (idx : Z) (v : Vars) tr' v' :
  loop_body a idx v = (tr', Done v') ->
  (fired tr' = [] /\ marks a tr' = [] /\ map_count v' = map_count v) \/
  (fired tr' = [idx] /\ map_count v + 1 < acc_map_count (config a) /\
   marks a tr' = [Pass] /\ map_count v' = map_count v + 1) \/
  (fired tr' = [idx] /\ acc_map_count (config a) <= map_count v + 1 /\
   marks a tr' = [Pass; Interim] /\ map_count v' = 0).
Proof.
  intros Hbody.
  body_cases Hbody; cbn [fired marks mark_of flat_map app map_count];
    rewrite ?String.eqb_refl; tests; auto 10.
Qed.

Lemma loop_cadence (a : Args) (idxs : list Z) tr (out : Outcome Vars) :
  1 <= acc_map_count (config a) ->
  loop a idxs init = (tr, out) ->
  marks a tr = cadence (acc_map_count (config a)) (List.length (fired tr)) /\
  match out with
  | Done v => map_count v = Z.of_nat (List.length (fired tr)) mod acc_map_count (config a)
  | Raised _ => True
  end.
Proof.
  intros HC Hrun.
  set (c := acc_map_count (config a)) in *.
  apply (loop_invariant a
           (fun tr v => marks a tr = cadence c (List.length (fired tr)) /\
                        map_count v = Z.of_nat (List.length (fired tr)) mod c)
           (fun tr => marks a tr = cadence c (List.length (fired tr))) idxs)
    with (tr0 := []) (v0 := init) in Hrun.
  - destruct out; cbn [app] in Hrun; tauto.
  - intros tr1 v1 idx tr' v' _ [Hm Hc] Hbody.
    rewrite marks_app, fired_app, length_app, Hm.
    destruct (marks_step _ _ _ _ _ Hbody)
      as [(-> & -> & ->)|[(-> & Hlt & -> & ->)|(-> & Hge & -> & ->)]];
      fold c in Hlt || fold c in Hge || idtac; cbn [List.length].
    + rewrite Nat.add_0_r, app_nil_r. auto.
    + rewrite Nat.add_1_r, cadence_succ, Nat2Z.inj_succ, <- Z.add_1_r.
      rewrite Hc in Hlt |- *. rewrite (mod_succ_small _ _ HC Hlt).
      destruct (Z.eqb_spec (Z.of_nat (List.length (fired tr1)) mod c + 1) 0) as [E|_];
        [|auto].
      pose proof (Z.mod_pos_bound (Z.of_nat (List.length (fired tr1))) c). lia.
    + rewrite Nat.add_1_r, cadence_succ, Nat2Z.inj_succ, <- Z.add_1_r.
      rewrite Hc in Hge. rewrite (mod_succ_wrap _ _ HC Hge). auto.
  - intros tr1 v1 idx tr' e _ [Hm Hc] Hbody.
    destruct (failed_step _ _ _ _ _ Hbody) as (_ & _ & Hf & _ & Hmk & _).
    rewrite marks_app, fired_app, Hmk, Hf, !app_nil_r. exact Hm.
  - cbn. auto.
Qed.

(** The loop writes to the checkpoint file only. *)
Lemma write_paths_step (a : Args) (idx : Z) (v : Vars) tr' (out : Outcome Vars) :
  loop_body a idx v = (tr', out) ->
  Forall (fun pm => fst pm = interim_map_file a) (mesh_writes tr').
Proof.
  intros Hbody. body_cases Hbody; cbn [mesh_writes flat_map app]; repeat constructor.
Qed.

Lemma loop_write_paths (a : Args) (idxs : list Z) tr (out : Outcome Vars) :
  loop a idxs init = (tr, out) ->
  Forall (fun pm => fst pm = interim_map_file a) (mesh_writes tr).
Proof.
  intros Hrun.
  apply (loop_invariant a
           (fun tr _ => Forall (fun pm => fst pm = interim_map_file a) (mesh_writes tr))
           (fun tr => Forall (fun pm => fst pm = interim_map_file a) (mesh_writes tr)) idxs)
    with (tr0 := []) (v0 := init) in Hrun.
  - destruct out; exact Hrun.
  - intros tr1 v1 idx tr' v' _ HI Hbody. rewrite mesh_writes_app. apply Forall_app.
    split; [exact HI | eapply write_paths_step; eauto].
  - intros tr1 v1 idx tr' e _ HI Hbody. rewrite mesh_writes_app. apply Forall_app.
    split; [exact HI | eapply write_paths_step; eauto].
  - constructor.
Qed.

(** *** The whole script *)

(** [main] in terms of its loop. *)
Lemma main_unfold (a : Args) :
  main a =
  match Py.deque_maxlen_error (acc_frame_count (config a)) with
  | Some e => ([SaveConfig (config_file a)], Raised e)
  | None =>
      match loop a (get_progress_bar 1 (n_scans a)) init with
      | (t, Done v) =>
          (SaveConfig (config_file a) :: t ++
             (if odometry_only a then []
              else [WriteTriangleMesh (final_map_file a) (global_mesh v)]),
           Done tt)
      | (t, Raised e) => (SaveConfig (config_file a) :: t, Raised e)
      end
  end.
Proof.
  unfold main. destruct (Py.deque_maxlen_error (acc_frame_count (config a)));
    [reflexivity|].
  cbn [bind emit ret app].
  destruct (loop a (get_progress_bar 1 (n_scans a)) init) as [t [v|e]]; [|reflexivity].
  destruct (odometry_only a); cbn; reflexivity.
Qed.

Lemma final_is_not_interim (a : Args) :
  String.eqb (final_map_file a) (interim_map_file a) = false.
Proof. apply String.eqb_neq. apply join_iterm_distinct. Qed.

(** C8. With checkpoint interval C >= 1: the interim path is the final map
    path with "_iterm" put before ".ply" (same directory, same map name);
    map_count counts the reconstruction passes modulo C (it is incremented
    after each pass and reset to 0 exactly when it reaches C); the passes
    and mesh writes of a run are, in order, its passes with an interim write
    to the "_iterm" file after every C-th pass and nowhere else, followed,
    when the run reaches the end of the stream with mapping enabled, by
    exactly one write to the final map file; no mesh is written to any other
    file, and every write carries the Global Mesh as fused up to that
    point. *)
Theorem checkpoint_cadence (a : Args) :
  1 <= acc_map_count (config a) ->
  (exists d, interim_map_file a = (d ++ map_name a ++ "_iterm.ply")%string /\
             final_map_file a = (d ++ map_name a ++ ".ply")%string) /\
  (forall idxs tr v,
      loop a idxs init = (tr, Done v) ->
      map_count v = Z.of_nat (List.length (fired tr)) mod acc_map_count (config a) /\
      marks a tr = cadence (acc_map_count (config a)) (List.length (fired tr))) /\
  (forall tr out,
      main a = (tr, out) ->
      marks a tr =
        cadence (acc_map_count (config a)) (List.length (fired tr)) ++
        match out with
        | Done _ => if odometry_only a then [] else [Final]
        | Raised _ => []
        end /\
      Forall (fun pm => fst pm = interim_map_file a \/ fst pm = final_map_file a)
             (mesh_writes tr) /\
      writes_current a TriangleMesh_new tr).
Proof.
  intros HC. split; [|split].
  - unfold interim_map_file, final_map_file.
    apply join_common_prefix, starts_with_sep_suffix.
  - intros idxs tr v Hrun. destruct (loop_cadence _ _ _ _ HC Hrun). auto.
  - intros tr out Hmain. rewrite main_unfold in Hmain.
    destruct (Py.deque_maxlen_error (acc_frame_count (config a))).
    { inversion Hmain; subst. cbn. auto. }
    destruct (loop a (get_progress_bar 1 (n_scans a)) init) as [t [v|e]] eqn:Hrun;
      inversion Hmain; subst; clear Hmain;
      destruct (loop_cadence _ _ _ _ HC Hrun) as [Hm _];
      destruct (loop_fused _ _ _ _ Hrun) as [Hw Hg];
      pose proof (loop_write_paths _ _ _ _ Hrun) as Hp;
      assert (Hp' : Forall (fun pm => fst pm = interim_map_file a \/
                                      fst pm = final_map_file a) (mesh_writes t))
        by (eapply Forall_impl; [|exact Hp]; cbn; auto).
    + change (SaveConfig (config_file a) :: ?l) with ([SaveConfig (config_file a)] ++ l).
      rewrite !marks_app, !fired_app, !mesh_writes_app, Hm.
      cbn [marks fired mesh_writes flat_map app mark_of].
      split; [|split].
      * destruct (odometry_only a); cbn [marks fired flat_map app mark_of List.length].
        -- now rewrite !app_nil_r.
        -- rewrite final_is_not_interim, String.eqb_refl, !app_nil_r. reflexivity.
      * apply Forall_app. split; [exact Hp'|].
        destruct (odometry_only a); cbn [mesh_writes flat_map app];
          [constructor | constructor; [right; reflexivity | constructor]].
      * cbn [writes_current app]. rewrite writes_current_app. split; [exact Hw|].
        destruct (odometry_only a); cbn; auto.
    + cbn [marks fired mesh_writes flat_map app mark_of writes_current].
      fold (marks a t). fold (fired t). fold (mesh_writes t). rewrite app_nil_r. auto.
Qed.

(** The frames a run pushes are the first indices of
    [get_progress_bar 1 n_scans], all of them when the run ends normally. *)
Lemma main_appended (a : Args) tr out :
  main a = (tr, out) ->
  exists rest, get_progress_bar 1 (n_scans a) = appended tr ++ rest /\
               match out with Done _ => rest = [] | Raised _ => True end.
Proof.
  rewrite main_unfold. intros Hmain.
  destruct (Py.deque_maxlen_error (acc_frame_count (config a))).
  { inversion Hmain; subst. eexists; split; [reflexivity | exact I]. }
  destruct (loop a (get_progress_bar 1 (n_scans a)) init) as [t [v|e]] eqn:Hrun;
    inversion Hmain; subst; clear Hmain;
    destruct (loop_appended _ _ _ _ _ Hrun) as (rest & Hidxs & Hrest).
  - exists rest. split; [|exact Hrest].
    change (SaveConfig (config_file a) :: ?l) with ([SaveConfig (config_file a)] ++ l).
    rewrite !appended_app. destruct (odometry_only a); cbn; rewrite app_nil_r; exact Hidxs.
  - exists rest. split; [exact Hidxs | exact I].
Qed.

(** No run ever pushes frame 0: the loop starts at index 1 (line 142). *)
Lemma frame_zero_never_appended (a : Args) : ~ In 0 (appended (fst (main a))).
Proof.
  destruct (main a) as [tr out] eqn:Hmain. cbn [fst]. intros Hin.
  destruct (main_appended _ _ _ Hmain) as (rest & Hidxs & _).
  assert (H : In 0 (get_progress_bar 1 (n_scans a))).
  { rewrite Hidxs. apply in_or_app. left. exact Hin. }
  apply range_In in H. lia.
Qed.

(** The loop does not read the [--odometry_only] flag. *)
Lemma loop_ignores_odometry_only (b : bool) (a : Args) (idxs : list Z) (v : Vars) :
  loop (with_odometry_only b a) idxs v = loop a idxs v.
Proof. reflexivity. Qed.

(** X14. The flag only decides whether the final map is written (line 177). *)
Lemma odometry_only_drops_final_write (a : Args) tr out :
  main (with_odometry_only true a) = (tr, out) ->
  main (with_odometry_only false a) =
  (tr ++ match out with
         | Done _ => [WriteTriangleMesh (final_map_file a) (fused a TriangleMesh_new tr)]
         | Raised _ => []
         end, out).
Proof.
  rewrite !main_unfold.
  change (acc_frame_count (config (with_odometry_only ?b a)))
    with (acc_frame_count (config a)).
  change (n_scans (with_odometry_only ?b a)) with (n_scans a).
  change (config_file (with_odometry_only ?b a)) with (config_file a).
  change (final_map_file (with_odometry_only ?b a)) with (final_map_file a).
  rewrite !loop_ignores_odometry_only. cbn [odometry_only with_odometry_only].
  destruct (Py.deque_maxlen_error (acc_frame_count (config a))).
  { intros H; inversion H; subst. reflexivity. }
  destruct (loop a (get_progress_bar 1 (n_scans a)) init) as [t [v|e]] eqn:Hrun;
    intros H; inversion H; subst; clear H.
  - destruct (loop_fused _ _ _ _ Hrun) as [_ Hg].
    rewrite app_nil_r. cbn [app]. rewrite Hg. reflexivity.
  - rewrite app_nil_r. reflexivity.
Qed.

(** C9 (as amended). With an empty scan list, and an accumulation count
    the deque accepts (0 <= K <= sys.maxsize), the script checks nothing and
    reports no configuration error: no frame is processed, no
    reconstruction pass is made and no checkpoint is requested.  When
    n_scans is -1 or at most 1 the run ends without any exception; its only
    call to the mesh sink is [write_triangle_mesh] on the final map path
    with the still-empty Global Mesh, made exactly when mapping is enabled.
    When an n_scans of 2 or more is given the run stops with IndexError at
    frame 1 and calls the mesh sink not at all. *)
Theorem zero_scans_run (a : Args) :
  scan_names a = [] ->
  0 <= acc_frame_count (config a) <= Py.ssize_t_max ->
  main a =
  if 2 <=? n_scans a
  then ([SaveConfig (config_file a)], Raised Py.IndexError)
  else (SaveConfig (config_file a) ::
          (if odometry_only a then []
           else [WriteTriangleMesh (final_map_file a) TriangleMesh_new]),
        Done tt).
Proof.
  intros Hnames HK. rewrite main_unfold.
  rewrite (proj2 (deque_maxlen_accepted _) HK).
  unfold get_progress_bar.
  destruct (Z.leb_spec 2 (n_scans a)) as [Hn|Hn].
  - rewrite range_cons by lia. unfold loop. cbn [for_each].
    unfold loop_body at 1, subscript at 1. rewrite Hnames. reflexivity.
  - rewrite range_empty by lia. reflexivity.
Qed.
End RunFacts.

(** ** Mesh deduplication *)

Module TriangleMeshFacts.

Import TriangleMesh.

Section KeepFirst.

Context {A : Type} (same : A -> A -> bool).

Lemma keep_first_incl (l : list A) (x : A) : In x (keep_first same l) -> In x l.
Proof.
  revert x; induction l as [|y l IH]; intros x; cbn [keep_first]; [tauto|].
  intros [->|Hin]; [left; reflexivity|].
  apply filter_In in Hin. right. apply IH. tauto.
Qed.

Lemma filter_keeps_all (p : A -> bool) (l : list A) :
  Forall (fun x => p x = true) l -> filter p l = l.
Proof.
  induction 1 as [|x l Hx _ IH]; cbn; [reflexivity|]. now rewrite Hx, IH.
Qed.

Lemma distinct_filter (p : A -> bool) (l : list A) :
  ForallOrdPairs (fun x y => same x y = false) l ->
  ForallOrdPairs (fun x y => same x y = false) (filter p l).
Proof.
  induction 1 as [|x l Hx _ IH]; cbn; [constructor|].
  destruct (p x); [|exact IH]. constructor; [|exact IH].
  apply Forall_forall. intros y Hy. apply filter_In in Hy.
  rewrite Forall_forall in Hx. apply Hx. tauto.
Qed.

(** What [keep_first] returns has no two [same] elements... *)
Lemma keep_first_distinct (l : list A) :
  ForallOrdPairs (fun x y => same x y = false) (keep_first same l).
Proof.
  induction l as [|x l IH]; cbn [keep_first]; constructor.
  - apply Forall_forall. intros y Hy. apply filter_In in Hy.
    destruct Hy as [_ Hy]. now apply negb_true_iff in Hy.
  - apply distinct_filter. exact IH.
Qed.

(** ... and such a list is left as it is. *)
Lemma keep_first_fixed (l : list A) :
  ForallOrdPairs (fun x y => same x y = false) l -> keep_first same l = l.
Proof.
  induction 1 as [|x l Hx _ IH]; cbn [keep_first]; [reflexivity|].
  rewrite IH. f_equal. apply filter_keeps_all.
  eapply Forall_impl; [|exact Hx]. cbn. intros y ->. reflexivity.
Qed.

Lemma keep_first_idempotent (l : list A) :
  keep_first same (keep_first same l) = keep_first same l.
Proof. apply keep_first_fixed, keep_first_distinct. Qed.

(** Every element has a [same] representative among the kept ones. *)
Lemma keep_first_represents (l : list A) (y : A) :
  (forall x, same x x = true) ->
  (forall x1 x2 x3, same x1 x2 = true -> same x2 x3 = true -> same x1 x3 = true) ->
  In y l -> exists x, In x (keep_first same l) /\ same x y = true.
Proof.
  intros Hrefl Htrans. induction l as [|z l IH]; cbn [keep_first]; [intros []|].
  intros [->|Hin].
  - exists y. split; [left; reflexivity | apply Hrefl].
  - destruct (IH Hin) as (x & Hx & Hxy).
    destruct (same z x) eqn:Hzx.
    + exists z. split; [left; reflexivity | eapply Htrans; eauto].
    + exists x. split; [|exact Hxy]. right. apply filter_In. now rewrite Hzx.
Qed.

End KeepFirst.

Lemma subset_incl (l1 l2 : list nat) : subset l1 l2 = true <-> incl l1 l2.
Proof.
  unfold subset, incl. rewrite forallb_forall. split; intros H x Hx.
  - apply H in Hx. apply existsb_exists in Hx. destruct Hx as (y & Hy & E).
    apply Nat.eqb_eq in E. now subst.
  - apply existsb_exists. exists x. split; [auto | apply Nat.eqb_refl].
Qed.

Lemma same_vertex_set_refl (t : Triangle) : same_vertex_set t t = true.
Proof.
  unfold same_vertex_set. apply andb_true_iff. split; apply subset_incl, incl_refl.
Qed.

Lemma same_vertex_set_trans (t1 t2 t3 : Triangle) :
  same_vertex_set t1 t2 = true -> same_vertex_set t2 t3 = true ->
  same_vertex_set t1 t3 = true.
Proof.
  unfold same_vertex_set. rewrite !andb_true_iff, !subset_incl.
  intros [H12 H21] [H23 H32]. split; eapply incl_tran; eauto.
Qed.

Lemma same_vertex_set_sym (t1 t2 : Triangle) :
  same_vertex_set t1 t2 = same_vertex_set t2 t1.
Proof. unfold same_vertex_set. apply andb_comm. Qed.

Lemma distinct_map {A C : Type} (R : C -> C -> Prop) (f : A -> C) (l : list A) :
  ForallOrdPairs R (map f l) <-> ForallOrdPairs (fun x y => R (f x) (f y)) l.
Proof.
  induction l as [|x l IH]; cbn [map].
  - split; constructor.
  - split; intros H; inversion H; subst; constructor; try (apply IH; assumption).
    + rewrite Forall_forall in *. intros y Hy. auto using in_map.
    + rewrite Forall_forall in *. intros y Hy. apply in_map_iff in Hy.
      destruct Hy as (z & <- & Hz). auto.
Qed.

Lemma distinct_impl_In {A : Type} (R R' : A -> A -> Prop) (l : list A) :
  (forall x y, In x l -> In y l -> R x y -> R' x y) ->
  ForallOrdPairs R l -> ForallOrdPairs R' l.
Proof.
  intros Himp H. induction H as [|x l Hx _ IH]; constructor.
  - rewrite Forall_forall in *. intros y Hy. apply Himp; cbn; auto.
  - apply IH. intros y z Hy Hz. apply Himp; cbn; auto.
Qed.

Section Dedup.

Context {V : Type} (V_eq_dec : forall x y : V, {x = y} + {x <> y}).

Lemma coincident_false (x y : V) : coincident V_eq_dec x y = false <-> x <> y.
Proof. unfold coincident. destruct (V_eq_dec x y); split; congruence. Qed.

Lemma NoDup_distinct (l : list V) :
  NoDup l <-> ForallOrdPairs (fun x y => coincident V_eq_dec x y = false) l.
Proof.
  split.
  - induction 1 as [|x l Hx _ IH]; constructor; [|exact IH].
    apply Forall_forall. intros y Hy. apply coincident_false. congruence.
  - induction 1 as [|x l Hx _ IH]; constructor; [|exact IH].
    intros Hin. rewrite Forall_forall in Hx. apply Hx in Hin.
    apply coincident_false in Hin. congruence.
Qed.

Lemma index_of_nth (l : list V) (i : nat) (v : V) :
  NoDup l -> nth_error l i = Some v -> index_of V_eq_dec v l = Some i.
Proof.
  intros Hnd. revert i. induction Hnd as [|x l Hx _ IH]; intros i.
  - destruct i; discriminate.
  - destruct i as [|i]; cbn [nth_error index_of].
    + intros [= ->]. destruct (V_eq_dec v v); congruence.
    + intros Hi. destruct (V_eq_dec v x) as [->|_].
      * exfalso. apply Hx. eapply nth_error_In; eauto.
      * rewrite (IH _ Hi). reflexivity.
Qed.

Lemma reindex_fixed (l : list V) (i : nat) : NoDup l -> reindex V_eq_dec l l i = i.
Proof.
  intros Hnd. unfold reindex. destruct (nth_error l i) as [v|] eqn:Hi; [|reflexivity].
  now rewrite (index_of_nth _ _ _ Hnd Hi).
Qed.

(** Vertex deduplication leaves a mesh without coincident vertices as it
    is, and always returns a mesh without coincident vertices. *)
Lemma remove_duplicated_vertices_fixed (m : t V) :
  NoDup (vertices m) -> remove_duplicated_vertices V_eq_dec m = m.
Proof.
  intros Hnd. destruct m as [vs ts]. unfold remove_duplicated_vertices.
  cbn [vertices triangles] in *.
  rewrite (keep_first_fixed _ vs) by (apply NoDup_distinct; exact Hnd).
  f_equal. rewrite <- (map_id ts) at 2. apply map_ext.
  intros [[i j] k]. unfold reindex_triangle. now rewrite !reindex_fixed.
Qed.

Lemma remove_duplicated_vertices_NoDup (m : t V) :
  NoDup (vertices (remove_duplicated_vertices V_eq_dec m)).
Proof. apply NoDup_distinct. cbn. apply keep_first_distinct. Qed.

Lemma dedup_without_coincident_vertices (m : t V) :
  NoDup (vertices m) -> dedup V_eq_dec m = remove_duplicated_triangles m.
Proof. intros Hnd. unfold dedup. now apply remove_duplicated_vertices_fixed. Qed.

Lemma union_empty (g : t V) : union g empty = g.
Proof.
  destruct g as [vs ts]. unfold union. cbn. now rewrite !app_nil_r.
Qed.

(** Every Global Mesh the fusion can produce is free of coincident
    vertices. *)
Lemma fused_NoDup (patches : list (t V)) (g : t V) :
  NoDup (vertices g) -> NoDup (vertices (fold_left (fuse V_eq_dec) patches g)).
Proof.
  revert g. induction patches as [|p ps IH]; intros g Hg; cbn [fold_left]; [exact Hg|].
  apply IH. apply remove_duplicated_vertices_NoDup.
Qed.

Lemma remove_duplicated_triangles_idempotent (m : t V) :
  remove_duplicated_triangles (remove_duplicated_triangles m)
  = remove_duplicated_triangles m.
Proof.
  unfold remove_duplicated_triangles. cbn [vertices triangles].
  now rewrite keep_first_idempotent.
Qed.

(** From the second application on, the deduplication pass changes
    nothing. *)
Lemma dedup_stable_after_two (m : t V) :
  dedup V_eq_dec (dedup V_eq_dec (dedup V_eq_dec m)) = dedup V_eq_dec (dedup V_eq_dec m).
Proof.
  assert (Hnd : NoDup (vertices (dedup V_eq_dec m)))
    by apply remove_duplicated_vertices_NoDup.
  rewrite (dedup_without_coincident_vertices _ Hnd).
  rewrite dedup_without_coincident_vertices by exact Hnd.
  apply remove_duplicated_triangles_idempotent.
Qed.

Lemma merged_In (l : list V) (x : V) :
  In x (keep_first (coincident V_eq_dec) l) <-> In x l.
Proof.
  split; [apply keep_first_incl|]. intros Hin.
  destruct (keep_first_represents (coincident V_eq_dec) l x) as (y & Hy & Hxy); auto.
  - intros z. unfold coincident. destruct (V_eq_dec z z); congruence.
  - unfold coincident. intros x1 x2 x3.
    destruct (V_eq_dec x1 x2), (V_eq_dec x2 x3), (V_eq_dec x1 x3); congruence.
  - unfold coincident in Hxy. destruct (V_eq_dec y x); congruence.
Qed.

Lemma index_of_In (l : list V) (x : V) :
  In x l -> exists j, index_of V_eq_dec x l = Some j /\ nth_error l j = Some x.
Proof.
  induction l as [|y l IH]; [intros []|]. intros Hin. cbn [index_of].
  destruct (V_eq_dec x y) as [->|Hne]; [exists O; split; reflexivity|].
  destruct Hin as [->|Hin]; [congruence|].
  destruct (IH Hin) as (j & Hj & Hn). exists (S j). rewrite Hj. split; [reflexivity | exact Hn].
Qed.

(** The vertex merge keeps every corner where it was: the new index of a
    corner names, among the merged vertices, the vertex the old index
    named. *)
Lemma reindex_position (old : list V) (i : nat) (x : V) :
  nth_error old i = Some x ->
  nth_error (keep_first (coincident V_eq_dec) old)
            (reindex V_eq_dec old (keep_first (coincident V_eq_dec) old) i) = Some x.
Proof.
  intros Hi. unfold reindex. rewrite Hi.
  assert (Hin : In x (keep_first (coincident V_eq_dec) old))
    by (apply merged_In; eapply nth_error_In; eauto).
  destruct (index_of_In _ _ Hin) as (j & -> & Hj). exact Hj.
Qed.

Lemma vertex_set_reindex (old new : list V) (u : Triangle) :
  vertex_set (reindex_triangle V_eq_dec old new u)
  = map (reindex V_eq_dec old new) (vertex_set u).
Proof. destruct u as [[i j] k]. reflexivity. Qed.

(** Re-indexing maps triangles with the same vertex set to triangles with
    the same vertex set. *)
Lemma same_vertex_set_reindex (old new : list V) (u1 u2 : Triangle) :
  same_vertex_set u1 u2 = true ->
  same_vertex_set (reindex_triangle V_eq_dec old new u1)
                  (reindex_triangle V_eq_dec old new u2) = true.
Proof.
  unfold same_vertex_set. rewrite !andb_true_iff, !subset_incl, !vertex_set_reindex.
  intros [H12 H21]. split; apply incl_map; assumption.
Qed.

(** A second pass changes nothing exactly when the first pass left no two
    triangles with the same vertex set. *)
Lemma dedup_twice_iff_distinct (m : t V) :
  dedup V_eq_dec (dedup V_eq_dec m) = dedup V_eq_dec m <->
  ForallOrdPairs (fun u1 u2 => same_vertex_set u1 u2 = false)
                 (triangles (dedup V_eq_dec m)).
Proof.
  assert (Hnd : NoDup (vertices (dedup V_eq_dec m)))
    by apply remove_duplicated_vertices_NoDup.
  rewrite (dedup_without_coincident_vertices _ Hnd).
  destruct (dedup V_eq_dec m) as [vs ts]. unfold remove_duplicated_triangles.
  cbn [vertices triangles]. split.
  - intros [= H]. rewrite <- H. apply keep_first_distinct.
  - intros H. now rewrite keep_first_fixed.
Qed.

(** Without coincident vertices one pass is enough. *)
Lemma dedup_idempotent_without_coincident_vertices (m : t V) :
  NoDup (vertices m) ->
  dedup V_eq_dec (dedup V_eq_dec m) = dedup V_eq_dec m.
Proof.
  intros Hnd. rewrite (dedup_without_coincident_vertices m Hnd).
  rewrite dedup_without_coincident_vertices by exact Hnd.
  apply remove_duplicated_triangles_idempotent.
Qed.

(** C7 (as amended). For every mesh the deduplication pass (duplicated
    triangles, then duplicated vertices) applied twice gives exactly the
    result of applying it once if and only if no two triangles of the mesh
    are turned into duplicates by the vertex merge: whenever the merge gives
    two of its triangles the same vertex set, they had the same vertex set
    before.  In every case a third application gives exactly the result of
    the second. *)
Theorem dedup_idempotent_iff (m : t V) :
  let merge := reindex_triangle V_eq_dec (vertices m)
                                (keep_first (coincident V_eq_dec) (vertices m)) in
  (dedup V_eq_dec (dedup V_eq_dec m) = dedup V_eq_dec m <->
   forall u1 u2, In u1 (triangles m) -> In u2 (triangles m) ->
                 same_vertex_set (merge u1) (merge u2) = true ->
                 same_vertex_set u1 u2 = true) /\
  dedup V_eq_dec (dedup V_eq_dec (dedup V_eq_dec m)) = dedup V_eq_dec (dedup V_eq_dec m).
Proof.
  intros merge. split; [|apply dedup_stable_after_two].
  rewrite dedup_twice_iff_distinct.
  change (triangles (dedup V_eq_dec m))
    with (map merge (keep_first same_vertex_set (triangles m))).
  rewrite distinct_map. split.
  - intros Hd u1 u2 H1 H2 Hsame.
    destruct (keep_first_represents same_vertex_set _ u1
                same_vertex_set_refl same_vertex_set_trans H1) as (r1 & Hr1 & Hs1).
    destruct (keep_first_represents same_vertex_set _ u2
                same_vertex_set_refl same_vertex_set_trans H2) as (r2 & Hr2 & Hs2).
    assert (Hm : same_vertex_set (merge r1) (merge r2) = true).
    { eapply same_vertex_set_trans; [apply same_vertex_set_reindex; exact Hs1|].
      eapply same_vertex_set_trans; [exact Hsame|].
      rewrite same_vertex_set_sym. apply same_vertex_set_reindex. exact Hs2. }
    destruct (ForallOrdPairs_In Hd _ _ Hr1 Hr2) as [E|[E|E]].
    + subst r2. eapply same_vertex_set_trans; [|exact Hs2].
      rewrite same_vertex_set_sym. exact Hs1.
    + congruence.
    + rewrite same_vertex_set_sym in E. congruence.
  - intros Hc. eapply distinct_impl_In; [|apply keep_first_distinct].
    cbn beta. intros u1 u2 H1 H2 Hdiff.
    destruct (same_vertex_set (merge u1) (merge u2)) eqn:E; [|reflexivity].
    apply Hc in E; [congruence| |]; eapply keep_first_incl; eauto.
Qed.

(** C6 (as amended). Fusing the empty patch into any Global Mesh the
    pipeline can reach (the empty mesh fused with any sequence of patches)
    leaves the vertex list as it is and keeps, of the triangles, the first of
    every group with the same vertex set: every vertex set that had a
    triangle still has one and no other gets one.  It leaves the Global Mesh
    unchanged exactly when the mesh holds no two triangles with the same
    vertex set, and a second such fusion changes nothing. *)
Theorem fuse_empty_keeps_first_triangles (patches : list (t V)) :
  let g := fold_left (fuse V_eq_dec) patches empty in
  let g' := fuse V_eq_dec g empty in
  vertices g' = vertices g /\
  triangles g' = keep_first same_vertex_set (triangles g) /\
  same_triangles g' g /\
  (g' = g <->
   ForallOrdPairs (fun u1 u2 => same_vertex_set u1 u2 = false) (triangles g)) /\
  fuse V_eq_dec g' empty = g'.
Proof.
  intros g g'.
  assert (Hg : NoDup (vertices g)) by (apply fused_NoDup; constructor).
  assert (Hg' : g' = remove_duplicated_triangles g).
  { unfold g', fuse. now rewrite union_empty, (dedup_without_coincident_vertices g Hg). }
  rewrite Hg'. split; [reflexivity|]. split; [reflexivity|]. split; [|split].
  - intros u. unfold has_triangle. cbn [remove_duplicated_triangles triangles]. split.
    + intros (u' & Hin & Hsame). exists u'. split; [|exact Hsame].
      eapply keep_first_incl; eauto.
    + intros (u' & Hin & Hsame).
      destruct (keep_first_represents same_vertex_set (triangles g) u'
                  same_vertex_set_refl same_vertex_set_trans Hin) as (x & Hx & Hxu).
      exists x. split; [exact Hx|]. eapply same_vertex_set_trans; eauto.
  - destruct g as [vs ts]. unfold remove_duplicated_triangles.
    cbn [vertices triangles]. split.
    + intros [= H]. rewrite <- H. apply keep_first_distinct.
    + intros H. now rewrite keep_first_fixed.
  - unfold fuse. rewrite union_empty.
    rewrite dedup_without_coincident_vertices by exact Hg.
    apply remove_duplicated_triangles_idempotent.
Qed.

End Dedup.

End TriangleMeshFacts.

(** ** The fusion on triangle meshes *)

Section MeshFusion.

Context {V : Type} (V_eq_dec : forall x y : V, {x = y} + {x <> y}).
Context (c : Collaborators (TriangleMesh.t V)).

(** C5. In one iteration of the driving loop over triangle meshes the
    Global Mesh changes only if the trigger fires, and then, the candidate
    patch p being what the reconstructor returns for the window, the new
    Global Mesh is the result of exactly three steps in this order.
    (1) Union u: the vertices of p are appended to those of the Global
    Mesh and the triangles of p, shifted to name the appended vertices, to
    its triangles.  (2) Triangle deduplication d: the vertices of u are
    kept; of its triangles the first of each group with the same vertex set
    is kept, so no two triangles of d have the same vertex set and every
    triangle of u has one with its vertex set in d.  (3) Vertex
    deduplication: the new Global Mesh has the vertices of d without
    repetition, as many triangles as d, and every corner of a triangle is
    re-indexed to the merged vertex at the same position. *)
Theorem fusion_three_steps (a : @Args (mesh_backend V_eq_dec c)) (idx : Z)
        (v : Vars) tr' v' :
  loop_body a idx v = (tr', Done v') ->
  (fired tr' = [] /\ global_mesh v' = global_mesh v) \/
  (fired tr' = [idx] /\
   exists window,
     windows tr' = [window] /\
     let g : TriangleMesh.t V := global_mesh v in
     let p : TriangleMesh.t V := create_mesh_from_map window (config a) in
     let u := TriangleMesh.union g p in
     let d := TriangleMesh.remove_duplicated_triangles u in
     let g' : TriangleMesh.t V := global_mesh v' in
     mesh v' = p /\
     (TriangleMesh.vertices u = TriangleMesh.vertices g ++ TriangleMesh.vertices p /\
      TriangleMesh.triangles u =
        TriangleMesh.triangles g ++
        map (TriangleMesh.shift (List.length (TriangleMesh.vertices g)))
            (TriangleMesh.triangles p)) /\
     (TriangleMesh.vertices d = TriangleMesh.vertices u /\
      TriangleMesh.triangles d =
        TriangleMesh.keep_first TriangleMesh.same_vertex_set (TriangleMesh.triangles u) /\
      ForallOrdPairs (fun u1 u2 => TriangleMesh.same_vertex_set u1 u2 = false)
                     (TriangleMesh.triangles d) /\
      (forall u1, In u1 (TriangleMesh.triangles u) ->
                  exists u2, In u2 (TriangleMesh.triangles d) /\
                             TriangleMesh.same_vertex_set u2 u1 = true)) /\
     (g' = TriangleMesh.remove_duplicated_vertices V_eq_dec d /\
      NoDup (TriangleMesh.vertices g') /\
      (forall x, In x (TriangleMesh.vertices g') <-> In x (TriangleMesh.vertices d)) /\
      List.length (TriangleMesh.triangles g') = List.length (TriangleMesh.triangles d) /\
      (forall i x,
          nth_error (TriangleMesh.vertices d) i = Some x ->
          nth_error (TriangleMesh.vertices g')
                    (TriangleMesh.reindex V_eq_dec (TriangleMesh.vertices d)
                                          (TriangleMesh.vertices g') i) = Some x))).
Proof.
  intros Hbody.
  assert (Hsteps :
    forall (g p : TriangleMesh.t V),
      let u := TriangleMesh.union g p in
      let d := TriangleMesh.remove_duplicated_triangles u in
      let g' := TriangleMesh.remove_duplicated_vertices V_eq_dec d in
      (TriangleMesh.vertices d = TriangleMesh.vertices u /\
       TriangleMesh.triangles d =
         TriangleMesh.keep_first TriangleMesh.same_vertex_set (TriangleMesh.triangles u) /\
       ForallOrdPairs (fun u1 u2 => TriangleMesh.same_vertex_set u1 u2 = false)
                      (TriangleMesh.triangles d) /\
       (forall u1, In u1 (TriangleMesh.triangles u) ->
                   exists u2, In u2 (TriangleMesh.triangles d) /\
                              TriangleMesh.same_vertex_set u2 u1 = true)) /\
      (g' = g' /\
       NoDup (TriangleMesh.vertices g') /\
       (forall x, In x (TriangleMesh.vertices g') <-> In x (TriangleMesh.vertices d)) /\
       List.length (TriangleMesh.triangles g') = List.length (TriangleMesh.triangles d) /\
       (forall i x,
           nth_error (TriangleMesh.vertices d) i = Some x ->
           nth_error (TriangleMesh.vertices g')
                     (TriangleMesh.reindex V_eq_dec (TriangleMesh.vertices d)
                                           (TriangleMesh.vertices g') i) = Some x))).
  { intros g p u d g'. split; [split; [reflexivity|split; [reflexivity|split]]|].
    - apply TriangleMeshFacts.keep_first_distinct.
    - intros u1 H1.
      apply (TriangleMeshFacts.keep_first_represents
               TriangleMesh.same_vertex_set _ u1
               TriangleMeshFacts.same_vertex_set_refl
               TriangleMeshFacts.same_vertex_set_trans H1).
    - split; [reflexivity|]. split; [apply TriangleMeshFacts.remove_duplicated_vertices_NoDup|].
      split; [intros x; apply TriangleMeshFacts.merged_In|].
      split; [apply length_map|].
      intros i x Hi. apply TriangleMeshFacts.reindex_position. exact Hi. }
  body_cases Hbody; cbn [fired windows flat_map app global_mesh mesh];
    [right | right | left; split; reflexivity];
    (split; [reflexivity|]); eexists; (split; [reflexivity|]);
    cbv zeta; (split; [reflexivity|]); (split; [split; reflexivity|]);
    apply Hsteps.
Qed.

End MeshFusion.


(** ** Concrete runs *)

Module Runs.

Import Demo.

(** C1. A run in odometry-only mode (three scans, accumulation count 2,
    checkpoint interval 1) still runs a reconstruction pass at frame 2,
    fuses the patch into the Global Mesh and writes it to the "_iterm"
    checkpoint file; only the final write is left out. *)
Theorem odometry_only_run_still_maps :
  odometry_only odometry_run = true /\
  snd (main odometry_run) = Done tt /\
  fired (fst (main odometry_run)) = [2] /\
  mesh_writes (fst (main odometry_run)) =
    [("out/ply_depth_10_gicp_mesh_iterm.ply",
      {| TriangleMesh.vertices :=
           [(2, 0, 0); (2, 1, 0); (2, 0, 1); (3, 0, 0); (3, 1, 0); (3, 0, 1)];
         TriangleMesh.triangles := [(0, 1, 2); (3, 4, 5)]%nat |})].
Proof. repeat split; vm_compute; reflexivity. Qed.

(** C2. With ten scans and accumulation count 4 the trigger fires at
    frames 4, 8 and 9: the loop starts at frame 1, so scan_count reaches 4
    one frame later than in a loop that starts at frame 0. *)
Theorem trigger_fires_at_4_8_9 :
  n_scans ten_scans = 10 /\
  acc_frame_count (config ten_scans) = 4 /\
  fired (fst (main ten_scans)) = [4; 8; 9].
Proof. repeat split; vm_compute; reflexivity. Qed.

(** The same loop body run over every frame index fires at 3, 7 and 9. *)
Lemma trigger_from_frame_zero :
  fired (fst (loop ten_scans (get_progress_bar 0 (n_scans ten_scans)) init)) = [3; 7; 9].
Proof. vm_compute; reflexivity. Qed.

(** C3. A run over three scans ends normally having pushed frames 1 and
    2 only: frame 0, the first index of [0, n_scans), is never processed. *)
Theorem frame_zero_is_skipped :
  Py.range 0 (n_scans three_scans) = [0; 1; 2] /\
  snd (main three_scans) = Done tt /\
  appended (fst (main three_scans)) = [1; 2].
Proof. repeat split; vm_compute; reflexivity. Qed.

(** C9, counterexample.  With no scan in the dataset the run raises
    nothing, and it hands the (empty) Global Mesh to the mesh sink for the
    final map. *)
Lemma zero_scans_no_error_and_final_write :
  scan_names no_scans = [] /\
  ~ (exists e, snd (main no_scans) = Raised e) /\
  mesh_writes (fst (main no_scans)) =
    [("out/ply_depth_10_gicp_mesh.ply", TriangleMesh.empty)].
Proof.
  split; [reflexivity|]. split; [|vm_compute; reflexivity].
  intros [e He]. vm_compute in He. discriminate He.
Qed.

(** C7, counterexample.  The first pass merges the two copies of the
    shared point and so turns the two triangles into duplicates of each
    other; only a second pass removes one of them. *)
Lemma dedup_twice_differs_from_once :
  TriangleMesh.dedup Point_eq_dec overlap_mesh = merged_mesh /\
  TriangleMesh.dedup Point_eq_dec (TriangleMesh.dedup Point_eq_dec overlap_mesh)
  <> TriangleMesh.dedup Point_eq_dec overlap_mesh.
Proof.
  split; [vm_compute; reflexivity|]. vm_compute. intros H. discriminate H.
Qed.

Lemma five_scans_loop :
  loop five_scans (get_progress_bar 1 5) init = (five_scans_trace, Done five_scans_vars).
Proof. vm_compute. reflexivity. Defined.

Lemma window_buffer_holds_last_K_witness :
  1 <= acc_frame_count (config five_scans) /\
  loop five_scans (get_progress_bar 1 5) init = (five_scans_trace, Done five_scans_vars) /\
  Py.len (local_map five_scans_vars) = 2 /\
  local_map five_scans_vars = last_n 2 (pushed five_scans_trace).
Proof.
  assert (HK : 1 <= acc_frame_count (config five_scans)) by (vm_compute; discriminate).
  destruct (window_buffer_holds_last_K five_scans (get_progress_bar 1 5)
              five_scans_trace five_scans_vars HK five_scans_loop)
    as (_ & _ & Hfull & Hlast).
  split; [exact HK|]. split; [exact five_scans_loop|]. split.
  - apply Hfull. vm_compute. discriminate.
  - exact Hlast.
Defined.

Lemma counter_invariant_witness :
  1 <= acc_frame_count (config five_scans) /\
  1 <= acc_map_count (config five_scans) /\
  loop five_scans (get_progress_bar 1 5) init = (five_scans_trace, Done five_scans_vars) /\
  counters_in_range five_scans five_scans_vars.
Proof.
  assert (HK : 1 <= acc_frame_count (config five_scans)) by (vm_compute; discriminate).
  assert (HC : 1 <= acc_map_count (config five_scans)) by (vm_compute; discriminate).
  split; [exact HK|]. split; [exact HC|]. split; [exact five_scans_loop|].
  apply (counter_invariant five_scans (get_progress_bar 1 5)
           five_scans_trace five_scans_vars HK HC five_scans_loop).
Defined.

Lemma checkpoint_cadence_witness :
  1 <= acc_map_count (config ten_scans) /\
  map fst (mesh_writes (fst (main ten_scans))) =
    ["out/ply_depth_10_gicp_mesh_iterm.ply"; "out/ply_depth_10_gicp_mesh.ply"] /\
  marks ten_scans (fst (main ten_scans)) = [Pass; Pass; Interim; Pass; Final].
Proof.
  assert (HC : 1 <= acc_map_count (config ten_scans)) by (vm_compute; discriminate).
  split; [exact HC|]. split; [vm_compute; reflexivity|].
  destruct (checkpoint_cadence ten_scans HC) as (_ & _ & H).
  destruct (H (fst (main ten_scans)) (snd (main ten_scans)) (surjective_pairing _))
    as (Hm & _ & _).
  rewrite Hm. vm_compute. reflexivity.
Defined.

Lemma zero_scans_run_witness :
  scan_names no_scans = [] /\
  0 <= acc_frame_count (config no_scans) <= Py.ssize_t_max /\
  main no_scans =
    ([SaveConfig "out/ply_depth_10_gicp_mesh.yml";
      WriteTriangleMesh "out/ply_depth_10_gicp_mesh.ply" TriangleMesh_new], Done tt).
Proof.
  assert (HK : 0 <= acc_frame_count (config no_scans) <= Py.ssize_t_max)
    by (split; vm_compute; discriminate).
  split; [reflexivity|]. split; [exact HK|].
  rewrite (zero_scans_run no_scans eq_refl HK). vm_compute. reflexivity.
Defined.

(** C6, counterexample.  The Global Mesh reached by fusing a triangle
    and then the same triangle with its points in another order holds the
    triangles (0,1,2) and (0,2,1); fusing the empty patch removes (0,2,1),
    so the fusion is not the identity and the triangle set changes. *)
Lemma fuse_empty_drops_a_triangle :
  Cases.two_orientations
  = {| TriangleMesh.vertices := [(0, 0, 0); (1, 0, 0); (0, 1, 0)];
       TriangleMesh.triangles := [(0, 1, 2); (0, 2, 1)]%nat |} /\
  In (0, 2, 1)%nat (TriangleMesh.triangles Cases.two_orientations) /\
  ~ In (0, 2, 1)%nat
       (TriangleMesh.triangles
          (TriangleMesh.fuse Point_eq_dec Cases.two_orientations TriangleMesh.empty)) /\
  TriangleMesh.fuse Point_eq_dec Cases.two_orientations TriangleMesh.empty
  <> Cases.two_orientations.
Proof.
  split; [vm_compute; reflexivity|]. split; [vm_compute; auto|]. split.
  - vm_compute. intros [H|[]]. discriminate H.
  - vm_compute. intros H. discriminate H.
Qed.

(** A mesh with coincident vertices on which one pass is enough: the spare
    copy of the first point is not a corner of any triangle. *)
Lemma dedup_once_suffices_with_spare_copy :
  ~ NoDup (TriangleMesh.vertices Cases.spare_copy_mesh) /\
  TriangleMesh.dedup Point_eq_dec (TriangleMesh.dedup Point_eq_dec Cases.spare_copy_mesh)
  = TriangleMesh.dedup Point_eq_dec Cases.spare_copy_mesh.
Proof.
  split; [|vm_compute; reflexivity].
  intros H. inversion H as [|x l Hnotin _]; subst. apply Hnotin. cbn; auto.
Qed.

Lemma fusion_three_steps_witness :
  loop_body Cases.overlap_run 3 Cases.overlap_before
  = (Cases.overlap_trace, Done Cases.overlap_after) /\
  fired Cases.overlap_trace = [3] /\
  TriangleMesh.vertices (global_mesh Cases.overlap_after)
  = [(2, 0, 0); (2, 1, 0); (2, 0, 1); (3, 0, 0); (3, 1, 0); (3, 0, 1);
     (4, 0, 0); (4, 1, 0); (4, 0, 1)] /\
  TriangleMesh.triangles (global_mesh Cases.overlap_after)
  = [(0, 1, 2); (3, 4, 5); (3, 4, 5); (6, 7, 8)]%nat.
Proof.
  assert (H : loop_body Cases.overlap_run 3 Cases.overlap_before
              = (Cases.overlap_trace, Done Cases.overlap_after))
    by (vm_compute; reflexivity).
  split; [exact H|].
  destruct (fusion_three_steps Point_eq_dec Cases.demo_collaborators
              Cases.overlap_run 3 _ _ _ H) as [[Hf _]|(Hf & w & Hw & Hsteps)].
  - vm_compute in Hf. discriminate Hf.
  - split; [exact Hf|]. cbv zeta in Hsteps.
    destruct Hsteps as (_ & _ & _ & Hg & _). rewrite Hg.
    vm_compute in Hw. injection Hw as <-. split; vm_compute; reflexivity.
Defined.

End Runs.

(** * Further properties of the script *)

(** ** Ranges and subscripts *)

Lemma range_app (a b c : Z) :
  a <= b <= c -> Py.range a c = Py.range a b ++ Py.range b c.
Proof.
  intros H. remember (Z.to_nat (b - a)) as k eqn:Ek. revert a H Ek.
  induction k as [|k IH]; intros a H Ek.
  - assert (a = b) by lia. subst. rewrite (range_empty b b) by lia. reflexivity.
  - rewrite (range_cons a c), (range_cons a b) by lia.
    rewrite (IH (a + 1)) by lia. reflexivity.
Qed.

Lemma range_snoc (a b : Z) : a <= b -> Py.range a (b + 1) = Py.range a b ++ [b].
Proof.
  intros H. rewrite (range_app a b (b + 1)) by lia.
  rewrite (range_cons b (b + 1)) by lia. now rewrite (range_empty (b + 1) (b + 1)) by lia.
Qed.

Lemma range_length (a b : Z) : Py.len (Py.range a b) = Z.max 0 (b - a).
Proof. unfold Py.len, Py.range. rewrite length_map, length_seq. lia. Qed.

Lemma index_in_range {A : Type} (l : list A) (i : Z) :
  0 <= i < Py.len l -> exists x, Py.index l i = Some x.
Proof.
  intros H. unfold Py.index.
  destruct (Z.leb_spec 0 i); [|lia]. destruct (Z.ltb_spec i (Py.len l)); [|lia]. cbn.
  destruct (nth_error l (Z.to_nat i)) as [x|] eqn:E; [eauto|].
  apply nth_error_None in E. unfold Py.len in *. lia.
Qed.

Lemma index_beyond {A : Type} (l : list A) (i : Z) :
  Py.len l <= i -> Py.index l i = None.
Proof.
  intros H. unfold Py.index. unfold Py.len in *.
  destruct (Z.ltb_spec i (Z.of_nat (List.length l))); [lia|]. rewrite andb_false_r.
  destruct (Z.ltb_spec i 0); [lia|]. now rewrite andb_false_r.
Qed.

Section Termination.

Context {B : Backend}.

(** From frame 0 on, an iteration raises exactly when its index is past the
    end of the scan list or of the pose list. *)
Lemma body_in_bounds (a : Args) (idx : Z) (v : Vars) :
  0 <= idx < Py.len (scan_names a) -> idx < Py.len (poses a) ->
  exists tr v', loop_body a idx v = (tr, Done v').
Proof.
  intros Hs Hp.
  destruct (index_in_range (scan_names a) idx Hs) as [name Hname].
  destruct (index_in_range (poses a) idx ltac:(lia)) as [pose Hpose].
  unfold loop_body, subscript. rewrite Hname, Hpose.
  cbn [bind ret emit raise app].
  repeat match goal with
         | |- context [if ?b then _ else _] => destruct b
         end; cbn [bind ret emit raise app]; eauto.
Qed.

Lemma body_out_of_bounds (a : Args) (idx : Z) (v : Vars) :
  Py.len (scan_names a) <= idx \/ Py.len (poses a) <= idx ->
  exists tr, loop_body a idx v = (tr, Raised Py.IndexError) /\
             appended tr = [] /\ mesh_writes tr = [] /\ fired tr = [].
Proof.
  intros H. unfold loop_body, subscript.
  destruct (Py.index (scan_names a) idx) as [name|] eqn:Hname.
  - destruct H as [H|H]; [rewrite index_beyond in Hname by exact H; discriminate|].
    rewrite (index_beyond _ _ H). cbn. eauto.
  - cbn. eauto.
Qed.

Lemma loop_in_bounds (a : Args) (idxs : list Z) (v : Vars) :
  (forall idx, In idx idxs ->
               0 <= idx < Py.len (scan_names a) /\ idx < Py.len (poses a)) ->
  exists tr v', loop a idxs v = (tr, Done v').
Proof.
  unfold loop. revert v. induction idxs as [|idx idxs IH]; intros v H; cbn [for_each].
  - unfold ret. eauto.
  - destruct (H idx (or_introl eq_refl)) as [Hs Hp].
    destruct (body_in_bounds a idx v Hs Hp) as (t1 & v1 & Hbody).
    destruct (IH v1) as (t2 & v2 & Hrest); [intros; apply H; now right|].
    rewrite (bind_Done _ _ _ _ Hbody), Hrest. cbn. eauto.
Qed.

Lemma loop_snoc (a : Args) (idxs : list Z) (idx : Z) (v0 : Vars) :
  loop a (idxs ++ [idx]) v0 = bind (loop a idxs v0) (loop_body a idx).
Proof.
  unfold loop. rewrite for_each_app. unfold bind.
  destruct (for_each idxs (loop_body a) v0) as [t [v|e]]; [|reflexivity].
  cbn [for_each]. unfold bind, ret.
  destruct (loop_body a idx v) as [t' [v'|e]]; now rewrite ?app_nil_r.
Qed.

Lemma loop_snoc_Done (a : Args) (idxs : list Z) (idx : Z) (v0 : Vars) tr v :
  loop a (idxs ++ [idx]) v0 = (tr, Done v) ->
  exists tr1 v1 tr2,
    loop a idxs v0 = (tr1, Done v1) /\ loop_body a idx v1 = (tr2, Done v) /\
    tr = tr1 ++ tr2.
Proof.
  rewrite loop_snoc. unfold bind.
  destruct (loop a idxs v0) as [t1 [v1|e]]; [|discriminate].
  destruct (loop_body a idx v1) as [t2 [v2|e]] eqn:Hbody; [|discriminate].
  intros [= <- <-]. exists t1, v1, t2. auto.
Qed.

End Termination.

(** ** Which runs end normally *)

Section Completion.

Context {B : Backend}.



(** X2. A run that ends normally has pushed the frames 1, 2, ..., n_scans - 1,
    each once and in this order, and nothing else. *)
Theorem completed_run_pushes_frames_from_1 (a : Args) tr :
  main a = (tr, Done tt) ->
  appended tr = Py.range 1 (n_scans a) /\
  Py.len (pushed tr) = Z.max 0 (n_scans a - 1).
Proof.
  intros Hmain. destruct (main_appended _ _ _ Hmain) as (rest & Hidxs & ->).
  rewrite app_nil_r in Hidxs. unfold get_progress_bar in Hidxs. split; [auto|].
  unfold Py.len. rewrite pushed_length, <- Hidxs. apply range_length.
Qed.

(** X3. With an n_scans of at most 1, and an accumulation count the deque
    accepts (0 <= K <= sys.maxsize), no scan is read, whatever the dataset
    holds: the run saves the configuration, ends without an exception and
    its only call to the mesh sink is [write_triangle_mesh] on the final map
    path with the empty mesh, made exactly when mapping is enabled. *)
Theorem n_scans_at_most_one_processes_nothing (a : Args) :
  0 <= acc_frame_count (config a) <= Py.ssize_t_max ->
  n_scans a <= 1 ->
  main a =
  (SaveConfig (config_file a) ::
     (if odometry_only a then []
      else [WriteTriangleMesh (final_map_file a) TriangleMesh_new]),
   Done tt).
Proof.
  intros HK Hn. rewrite main_unfold.
  rewrite (proj2 (deque_maxlen_accepted _) HK).
  unfold get_progress_bar. rewrite range_empty by lia. reflexivity.
Qed.

(** X4. For an accumulation count the deque accepts (0 <= K <=
    sys.maxsize): when n_scans, at least 2, is larger than the number of
    scans or of poses, the run processes every frame it has both a scan and
    a pose for (frames 1 to m - 1, m the smaller of the two numbers), then
    stops with IndexError; every call it made to the mesh sink was for the
    checkpoint file, none for the final map. *)
Theorem overlong_n_scans_aborts (a : Args) :
  0 <= acc_frame_count (config a) <= Py.ssize_t_max ->
  2 <= n_scans a ->
  Z.min (Py.len (scan_names a)) (Py.len (poses a)) < n_scans a ->
  snd (main a) = Raised Py.IndexError /\
  appended (fst (main a)) =
    Py.range 1 (Z.min (Py.len (scan_names a)) (Py.len (poses a))) /\
  Forall (fun pm => fst pm = interim_map_file a) (mesh_writes (fst (main a))).
Proof.
  intros HK Hn Hm.
  set (m := Z.min (Py.len (scan_names a)) (Py.len (poses a))) in *.
  set (m' := Z.max 1 m).
  assert (Hrange : get_progress_bar 1 (n_scans a)
                   = Py.range 1 m' ++ m' :: Py.range (m' + 1) (n_scans a)).
  { unfold get_progress_bar. rewrite (range_app 1 m' (n_scans a)) by lia.
    now rewrite (range_cons m' (n_scans a)) by lia. }
  destruct (loop_in_bounds a (Py.range 1 m') init) as (t1 & v1 & Hrun1).
  { intros idx Hin. apply range_In in Hin. lia. }
  destruct (body_out_of_bounds a m' v1) as (t2 & Hbody & Ha2 & Hw2 & _); [lia|].
  assert (Hrun : loop a (get_progress_bar 1 (n_scans a)) init
                 = (t1 ++ t2, Raised Py.IndexError)).
  { rewrite Hrange. unfold loop. rewrite for_each_app.
    fold (loop a (Py.range 1 m') init). rewrite (bind_Done _ _ _ _ Hrun1).
    cbn [for_each]. now rewrite (bind_Raised _ _ _ _ Hbody). }
  rewrite main_unfold.
  rewrite (proj2 (deque_maxlen_accepted _) HK).
  rewrite Hrun. cbn [fst snd].
  change (SaveConfig (config_file a) :: ?l) with ([SaveConfig (config_file a)] ++ l).
  rewrite !appended_app, !mesh_writes_app, Ha2, Hw2, !app_nil_r. cbn [appended mesh_writes flat_map app].
  split; [reflexivity|]. split.
  - rewrite (loop_appended_Done _ _ _ _ _ Hrun1).
    destruct (Z.le_gt_cases 1 m); [f_equal; lia|].
    now rewrite !range_empty by lia.
  - eapply loop_write_paths; eauto.
Qed.

End Completion.

(** ** When the trigger fires *)

Lemma div_succ_small (n c : Z) :
  1 <= c -> n mod c + 1 < c -> (n + 1) / c = n / c.
Proof.
  intros Hc Hlt. symmetry. apply (Z.div_unique (n + 1) c (n / c) (n mod c + 1)).
  - pose proof (Z.mod_pos_bound n c). lia.
  - pose proof (Z.div_mod n c). lia.
Qed.

Lemma div_succ_wrap (n c : Z) :
  1 <= c -> c <= n mod c + 1 -> (n + 1) / c = n / c + 1.
Proof.
  intros Hc Hge. symmetry. apply (Z.div_unique (n + 1) c (n / c + 1) 0); [lia|].
  pose proof (Z.mod_pos_bound n c). pose proof (Z.div_mod n c). lia.
Qed.

Section Schedule.

Context {B : Backend}.

(** After the frames 1, ..., j - 1 of a run (j <= n_scans): the trigger has
    fired at the scheduled frames; before the last frame scan_count is
    (j - 1) mod K and (j - 1) / K passes were made. *)
Lemma prefix_schedule (a : Args) (k : nat) tr v :
  1 <= acc_frame_count (config a) ->
  Z.of_nat k + 1 <= n_scans a ->
  loop a (Py.range 1 (Z.of_nat k + 1)) init = (tr, Done v) ->
  fired tr =
    filter (fun idx => (idx mod acc_frame_count (config a) =? 0) || (idx =? n_scans a - 1))
           (Py.range 1 (Z.of_nat k + 1)) /\
  (Z.of_nat k + 1 < n_scans a ->
   scan_count v = Z.of_nat k mod acc_frame_count (config a) /\
   Py.len (fired tr) = Z.of_nat k / acc_frame_count (config a)) /\
  (Z.of_nat k + 1 = n_scans a -> 2 <= n_scans a ->
   Py.len (fired tr) = (n_scans a - 2) / acc_frame_count (config a) + 1).
Proof.
  intros HK. set (K := acc_frame_count (config a)) in *. set (n := n_scans a).
  revert tr v. induction k as [|k IH]; intros tr v Hj Hrun.
  - cbn in Hrun. inversion Hrun; subst. cbn.
    split; [reflexivity|]. split; [|lia]. intros _. split; reflexivity.
  - replace (Z.of_nat (S k) + 1) with ((Z.of_nat k + 1) + 1) in * by lia.
    rewrite range_snoc in * by lia.
    destruct (loop_snoc_Done _ _ _ _ _ _ Hrun) as (tr1 & v1 & tr2 & Hrun1 & Hbody & ->).
    destruct (IH _ _ ltac:(lia) Hrun1) as (Hf & Hmid & _).
    destruct (Hmid ltac:(lia)) as [Hsc Hlen]. clear Hmid IH.
    rewrite fired_app, filter_app, <- Hf. unfold Py.len in *. rewrite length_app.
    cbn [filter].
    replace (Z.of_nat (S k)) with (Z.of_nat k + 1) by lia.
    destruct (trigger_rule _ _ _ _ _ Hbody)
      as [(Hf2 & Hs0 & Hwhy)|(Hf2 & Hs1 & Hlt & Hnl)];
      fold K in Hwhy || fold K in Hlt; fold n in Hwhy || fold n in Hnl;
      rewrite Hf2; cbn [List.length].
    + split; [|split].
      * destruct Hwhy as [Hreach|Hlast].
        -- rewrite Hsc in Hreach. rewrite (mod_succ_wrap _ _ HK Hreach). reflexivity.
        -- rewrite Hlast, Z.eqb_refl, orb_true_r. reflexivity.
      * intros Hlt. destruct Hwhy as [Hreach|Hlast]; [|lia].
        rewrite Hsc in Hreach.
        rewrite (mod_succ_wrap _ _ HK Hreach), (div_succ_wrap _ _ HK Hreach). lia.
      * intros Hn _. replace (n - 2) with (Z.of_nat k) by lia. lia.
    + rewrite Hsc in Hlt.
      assert (Hmod : (Z.of_nat k + 1) mod K = Z.of_nat k mod K + 1)
        by (apply mod_succ_small; lia).
      split; [|split].
      * rewrite Hmod.
        destruct (Z.eqb_spec (Z.of_nat k mod K + 1) 0) as [E|_];
          [pose proof (Z.mod_pos_bound (Z.of_nat k) K); lia|].
        destruct (Z.eqb_spec (Z.of_nat k + 1) (n - 1)) as [E|_]; [lia|].
        cbn. now rewrite app_nil_r.
      * intros _. rewrite Hmod, (div_succ_small _ _ HK Hlt). lia.
      * intros Hn. lia.
Qed.

Lemma main_Done_loop (a : Args) tr :
  main a = (tr, Done tt) ->
  exists t v, loop a (get_progress_bar 1 (n_scans a)) init = (t, Done v) /\
              fired tr = fired t /\ windows tr = windows t.
Proof.
  rewrite main_unfold. intros Hmain.
  destruct (Py.deque_maxlen_error (acc_frame_count (config a))); [discriminate|].
  destruct (loop a (get_progress_bar 1 (n_scans a)) init) as [t [v|e]]; [|discriminate].
  inversion Hmain; subst. exists t, v. split; [reflexivity|].
  change (SaveConfig (config_file a) :: ?l) with ([SaveConfig (config_file a)] ++ l).
  rewrite !fired_app, !windows_app.
  destruct (odometry_only a); cbn [fired windows flat_map app];
    rewrite !app_nil_r; auto.
Qed.

(** X5. In a run that ends normally, with accumulation count K >= 1, the
    trigger fires exactly at the frames of [1, n_scans) whose index is a
    multiple of K, and at the last frame n_scans - 1. *)
Theorem trigger_schedule (a : Args) tr :
  1 <= acc_frame_count (config a) ->
  main a = (tr, Done tt) ->
  fired tr = schedule (acc_frame_count (config a)) (n_scans a).
Proof.
  intros HK Hmain. destruct (main_Done_loop _ _ Hmain) as (t & v & Hrun & -> & _).
  unfold schedule, get_progress_bar in *.
  destruct (Z.le_gt_cases (n_scans a) 1) as [Hn|Hn].
  - pose proof (range_empty 1 (n_scans a) Hn) as E. rewrite E in Hrun |- *.
    cbn in Hrun. inversion Hrun. reflexivity.
  - replace (n_scans a) with (Z.of_nat (Z.to_nat (n_scans a - 1)) + 1) in Hrun at 1 by lia.
    destruct (prefix_schedule a (Z.to_nat (n_scans a - 1)) _ _ HK ltac:(lia) Hrun) as [Hf _].
    rewrite Hf. f_equal. f_equal. lia.
Qed.

(** X6. Such a run over two or more frames makes (n_scans - 2) / K + 1
    reconstruction passes (integer division). *)
Theorem pass_count (a : Args) tr :
  1 <= acc_frame_count (config a) ->
  2 <= n_scans a ->
  main a = (tr, Done tt) ->
  Py.len (fired tr) = (n_scans a - 2) / acc_frame_count (config a) + 1.
Proof.
  intros HK Hn Hmain. destruct (main_Done_loop _ _ Hmain) as (t & v & Hrun & -> & _).
  unfold get_progress_bar in Hrun.
  replace (n_scans a) with (Z.of_nat (Z.to_nat (n_scans a - 1)) + 1) in Hrun at 1 by lia.
  destruct (prefix_schedule a (Z.to_nat (n_scans a - 1)) _ _ HK ltac:(lia) Hrun) as (_ & _ & Hlast).
  apply Hlast; lia.
Qed.

End Schedule.

(** ** What the reconstructor is given *)

Section Trailing.

Context {B : Backend}.





(** X8. With accumulation count 0 the window buffer never holds anything: the
    trigger fires at every frame and the reconstructor is given an empty
    window each time. *)
Theorem zero_accumulation_count (a : Args) :
  acc_frame_count (config a) = 0 ->
  fired (fst (main a)) = appended (fst (main a)) /\
  Forall (fun w => w = []) (windows (fst (main a))).
Proof.
  intros HK.
  assert (Hloop : forall idxs tr (out : Outcome Vars),
             loop a idxs init = (tr, out) ->
             fired tr = appended tr /\ Forall (fun w => w = []) (windows tr)).
  { intros idxs tr out Hrun.
    apply (loop_invariant a
             (fun tr v => (scan_count v = 0 /\ local_map v = []) /\
                          fired tr = appended tr /\ Forall (fun w => w = []) (windows tr))
             (fun tr => fired tr = appended tr /\ Forall (fun w => w = []) (windows tr))
             idxs) with (tr0 := []) (v0 := init) in Hrun.
    - destruct out; cbn [app] in Hrun; tauto.
    - intros tr1 v1 idx tr' v' _ [[Hs Hl] [Hf Hw]] Hbody.
      rewrite fired_app, appended_app, windows_app, Hf.
      body_cases Hbody; rewrite ?HK, ?Hs, ?Hl in *; try discriminate;
        cbn; (split; [split; reflexivity|]); (split; [reflexivity|]);
        apply Forall_app; (split; [exact Hw|]); repeat constructor.
    - intros tr1 v1 idx tr' e _ [_ [Hf Hw]] Hbody.
      destruct (failed_step _ _ _ _ _ Hbody) as (_ & Ha & Hf' & _).
      rewrite fired_app, appended_app, windows_app, Hf, Ha, Hf'.
      split; [reflexivity|]. apply Forall_app. split; [exact Hw|].
      body_cases Hbody; cbn; constructor.
    - cbn. auto. }
  rewrite main_unfold. rewrite HK.
  change (Py.deque_maxlen_error 0) with (@None Py.exn). cbv iota.
  destruct (loop a (get_progress_bar 1 (n_scans a)) init) as [t [v|e]] eqn:Hrun;
    destruct (Hloop _ _ _ Hrun) as [Hf Hw]; cbn [fst].
  - change (SaveConfig (config_file a) :: ?l) with ([SaveConfig (config_file a)] ++ l).
    rewrite !fired_app, !appended_app, !windows_app, Hf.
    destruct (odometry_only a); cbn [fired appended windows flat_map app];
      rewrite !app_nil_r; auto.
  - cbn [fired appended windows flat_map app]. auto.
Qed.

End Trailing.

(** ** More on checkpoints *)

Section Checkpoints.

Context {B : Backend}.

(** The passes and mesh writes of a whole run, from those of its loop. *)
Lemma main_marks (a : Args) tr (out : Outcome unit) :
  main a = (tr, out) ->
  exists t (out' : Outcome Vars),
    loop a (get_progress_bar 1 (n_scans a)) init = (t, out') /\
    fired tr = fired t /\
    marks a tr = marks a t ++ match out with
                              | Done _ => if odometry_only a then [] else [Final]
                              | Raised _ => []
                              end
    \/ (tr = [SaveConfig (config_file a)] /\ exists e, out = Raised e).
Proof.
  rewrite main_unfold. intros Hmain.
  destruct (Py.deque_maxlen_error (acc_frame_count (config a))).
  { inversion Hmain; subst. exists [], (Done init). right. eauto. }
  destruct (loop a (get_progress_bar 1 (n_scans a)) init) as [t [v|e]] eqn:Hrun;
    inversion Hmain; subst; clear Hmain.
  - exists t, (Done v). left. split; [reflexivity|].
    change (SaveConfig (config_file a) :: ?l) with ([SaveConfig (config_file a)] ++ l).
    rewrite !marks_app, !fired_app. cbn [marks fired flat_map app mark_of].
    destruct (odometry_only a); cbn [marks fired flat_map app mark_of].
    + now rewrite !app_nil_r.
    + rewrite final_is_not_interim, String.eqb_refl, !app_nil_r. auto.
  - exists t, (Raised e). left. split; [reflexivity|].
    cbn [marks fired flat_map app mark_of]. fold (marks a t). fold (fired t).
    now rewrite app_nil_r.
Qed.

Lemma loop_checkpoints_every_pass (a : Args) (idxs : list Z) tr (out : Outcome Vars) :
  acc_map_count (config a) <= 1 ->
  loop a idxs init = (tr, out) ->
  marks a tr = flat_map (fun _ => [Pass; Interim]) (fired tr).
Proof.
  intros HC Hrun.
  apply (loop_invariant a
           (fun tr v => map_count v = 0 /\
                        marks a tr = flat_map (fun _ => [Pass; Interim]) (fired tr))
           (fun tr => marks a tr = flat_map (fun _ => [Pass; Interim]) (fired tr)) idxs)
    with (tr0 := []) (v0 := init) in Hrun.
  - destruct out; cbn [app] in Hrun; tauto.
  - intros tr1 v1 idx tr' v' _ [Hc Hm] Hbody.
    rewrite marks_app, fired_app, flat_map_app, Hm.
    destruct (marks_step _ _ _ _ _ Hbody)
      as [(-> & -> & ->)|[(-> & Hlt & _)|(-> & _ & -> & ->)]]; [auto | lia | auto].
  - intros tr1 v1 idx tr' e _ [_ Hm] Hbody.
    destruct (failed_step _ _ _ _ _ Hbody) as (_ & _ & Hf & _ & Hmk & _).
    rewrite marks_app, fired_app, Hmk, Hf, !app_nil_r. exact Hm.
  - cbn. auto.
Qed.

(** X9. With a checkpoint interval of 1 or less (0 and negative values
    included) every reconstruction pass is followed by a write to the
    "_iterm" file. *)
Theorem checkpoint_after_every_pass (a : Args) tr (out : Outcome unit) :
  acc_map_count (config a) <= 1 ->
  main a = (tr, out) ->
  marks a tr =
    flat_map (fun _ => [Pass; Interim]) (fired tr) ++
    match out with
    | Done _ => if odometry_only a then [] else [Final]
    | Raised _ => []
    end.
Proof.
  intros HC Hmain.
  destruct (main_marks _ _ _ Hmain) as (t & out' & [(Hrun & -> & ->)|[-> [e ->]]]);
    [|reflexivity].
  now rewrite (loop_checkpoints_every_pass _ _ _ _ HC Hrun).
Qed.

Lemma cadence_interim_count (c : Z) (n : nat) :
  1 <= c ->
  Py.len (filter is_interim (cadence c n)) = Z.of_nat n / c.
Proof.
  intros Hc. unfold Py.len. induction n as [|n IH]; [reflexivity|].
  rewrite cadence_succ, filter_app, length_app, Nat2Z.inj_add, IH.
  rewrite Nat2Z.inj_succ, <- Z.add_1_r.
  destruct (Z.eqb_spec ((Z.of_nat n + 1) mod c) 0) as [E|E]; cbn [filter is_interim List.length].
  - rewrite div_succ_wrap; [lia | lia |].
    pose proof (Z.mod_pos_bound (Z.of_nat n) c).
    destruct (Z.lt_ge_cases (Z.of_nat n mod c + 1) c) as [Hlt|]; [|lia].
    rewrite mod_succ_small in E by lia. lia.
  - rewrite div_succ_small; [lia | lia |].
    destruct (Z.lt_ge_cases (Z.of_nat n mod c + 1) c) as [|Hge]; [lia|].
    rewrite mod_succ_wrap in E by lia. congruence.
Qed.

(** X10. With checkpoint interval C >= 1 a run writes passes / C checkpoints
    (integer division), so the passes made after the last checkpoint, fewer
    than C, are in no file until the final write. *)
Theorem interim_write_count (a : Args) tr (out : Outcome unit) :
  1 <= acc_map_count (config a) ->
  main a = (tr, out) ->
  Py.len (filter is_interim (marks a tr)) = Py.len (fired tr) / acc_map_count (config a).
Proof.
  intros HC Hmain.
  destruct (main_marks _ _ _ Hmain) as (t & out' & [(Hrun & -> & ->)|[-> [e ->]]]).
  - destruct (loop_cadence _ _ _ _ HC Hrun) as [Hm _].
    rewrite Hm, filter_app. unfold Py.len. rewrite length_app.
    assert (E : List.length
                  (filter is_interim
                          match out with
                          | Done _ => if odometry_only a then [] else [Final]
                          | Raised _ => []
                          end) = 0%nat)
      by (destruct out; [destruct (odometry_only a)|]; reflexivity).
    rewrite E, Nat.add_0_r. apply cadence_interim_count. exact HC.
  - reflexivity.
Qed.

End Checkpoints.

(** ** The files of a run *)

Lemma string_app_inj_l (p s1 s2 : string) : (p ++ s1 = p ++ s2)%string -> s1 = s2.
Proof. induction p as [|c p IH]; cbn; [auto|]. intros [= H]. auto. Qed.

Lemma string_app_assoc (s1 s2 s3 : string) :
  ((s1 ++ s2) ++ s3 = s1 ++ (s2 ++ s3))%string.
Proof. induction s1 as [|c s1 IH]; cbn; [reflexivity | now rewrite IH]. Qed.

Lemma prefix_app (p s : string) : String.prefix p (p ++ s) = true.
Proof.
  induction p as [|c p IH]; cbn; [now destruct s|].
  destruct (ascii_dec c c); [exact IH | congruence].
Qed.

Lemma starts_with_sep_app (s1 s2 : string) :
  Py.starts_with_sep (s1 ++ s2) =
  match s1 with
  | EmptyString => Py.starts_with_sep s2
  | _ => Py.starts_with_sep s1
  end.
Proof. destruct s1; reflexivity. Qed.

Lemma ends_with_sep_app (s1 s2 : string) :
  s2 <> EmptyString -> Py.ends_with_sep (s1 ++ s2) = Py.ends_with_sep s2.
Proof.
  intros H. induction s1 as [|c s1 IH]; [reflexivity|].
  cbn [append Py.ends_with_sep]. rewrite IH.
  destruct (s1 ++ s2)%string eqn:E; [|reflexivity].
  destruct s1; cbn in E; [congruence | discriminate].
Qed.

(** Among paths that are both relative or both absolute, joining to one
    directory is injective. *)
Lemma os_path_join_inj (d b1 b2 : string) :
  Py.starts_with_sep b1 = Py.starts_with_sep b2 ->
  Py.os_path_join d b1 = Py.os_path_join d b2 -> b1 = b2.
Proof.
  unfold Py.os_path_join. intros ->.
  destruct (Py.starts_with_sep b2); [auto|].
  destruct ((String.length d =? 0)%nat || Py.ends_with_sep d); intros H.
  - eapply string_app_inj_l; eauto.
  - apply string_app_inj_l in H. eapply (string_app_inj_l "/"); eauto.
Qed.

(** A relative path joined to a directory lies under that directory. *)
Lemma os_path_join_relative (d b : string) :
  Py.starts_with_sep b = false -> String.prefix d (Py.os_path_join d b) = true.
Proof.
  unfold Py.os_path_join. intros ->.
  destruct ((String.length d =? 0)%nat || Py.ends_with_sep d); apply prefix_app.
Qed.

(** An absolute path discards the directory it is joined to. *)
Lemma os_path_join_absolute (d b : string) :
  Py.starts_with_sep b = true -> Py.os_path_join d b = b.
Proof. unfold Py.os_path_join. now intros ->. Qed.

Lemma map_name_relative (i : Startup.Identity) :
  Py.starts_with_sep (Startup.dataset_name i) = false ->
  Py.starts_with_sep (Startup.map_name_of i) = false.
Proof.
  intros H. unfold Startup.map_name_of.
  rewrite !starts_with_sep_app.
  destruct (Startup.truthy (Startup.sequence i)); rewrite ?starts_with_sep_app;
    destruct (Startup.dataset_name i); cbn in *; auto.
Qed.

Section Files.

Context {B : Backend}.

(** X11. The three files of a run are three different files: saving the
    configuration, writing a checkpoint and writing the final map never
    overwrite one another. *)
Theorem artifact_paths_distinct (a : Args) :
  config_file a <> interim_map_file a /\
  config_file a <> final_map_file a /\
  final_map_file a <> interim_map_file a.
Proof.
  unfold config_file, interim_map_file, final_map_file.
  repeat split; intros H; apply os_path_join_inj in H;
    try (apply string_app_inj_l in H; discriminate H);
    rewrite !starts_with_sep_app; destruct (map_name a); reflexivity.
Qed.

(** X12. When the run identity is built as on lines 103-109 from a dataset name
    that does not begin with "/" (a [Path.name] never does), the
    configuration file, the checkpoints and the final map are all located
    under [config.out_dir]. *)
Theorem artifacts_under_out_dir (a : Args) (i : Startup.Identity) :
  map_name a = Startup.map_name_of i ->
  Py.starts_with_sep (Startup.dataset_name i) = false ->
  String.prefix (out_dir (config a)) (config_file a) = true /\
  String.prefix (out_dir (config a)) (interim_map_file a) = true /\
  String.prefix (out_dir (config a)) (final_map_file a) = true.
Proof.
  intros Hname Hrel. apply map_name_relative in Hrel. rewrite <- Hname in Hrel.
  unfold config_file, interim_map_file, final_map_file.
  repeat split; apply os_path_join_relative; rewrite starts_with_sep_app;
    destruct (map_name a); auto.
Qed.

End Files.

(** X13. The directory the scans are listed from ends with "/", so the pattern
    of line 124 names the ".ply" files inside that directory: always when a
    sequence is given, and for every non-empty dataset location otherwise.
    Normalising the dataset location twice changes nothing. *)
Theorem scans_dir_ends_with_sep (dataset : string) (sequence : option string) :
  (Startup.truthy sequence = true \/ dataset <> EmptyString) ->
  Py.ends_with_sep (Startup.scans_dir dataset sequence) = true /\
  Startup.dataset_dir (Startup.dataset_dir dataset) = Startup.dataset_dir dataset.
Proof.
  intros H.
  assert (Hdir : forall d, d <> EmptyString -> Py.ends_with_sep (Py.os_path_join d "") = true).
  { intros d Hd. unfold Py.os_path_join. cbn [Py.starts_with_sep].
    destruct (String.length d =? 0)%nat eqn:El.
    - destruct d; [congruence | discriminate].
    - cbn [orb]. destruct (Py.ends_with_sep d) eqn:Ed.
      + destruct d; [congruence|]. clear -Ed. revert a Ed.
        induction d as [|c d IH]; intros a Ed; [exact Ed|].
        cbn [append Py.ends_with_sep] in *. apply IH in Ed. exact Ed.
      + apply ends_with_sep_app. discriminate. }
  split.
  - unfold Startup.scans_dir, Startup.os_path_join_all.
    destruct (Startup.truthy sequence) eqn:Hseq; cbn [fold_left].
    + apply Hdir.
      unfold Py.os_path_join at 1. cbn [Py.starts_with_sep Ascii.eqb Bool.eqb].
      destruct (_ || _); intros E; apply (f_equal String.length) in E;
        rewrite !string_length_append in E; cbn in E; lia.
    + destruct H as [H|H]; [discriminate|]. apply Hdir. exact H.
  - unfold Startup.dataset_dir, Py.os_path_join. cbn [Py.starts_with_sep].
    destruct dataset as [|c d]; [reflexivity|]. cbn [String.length Nat.eqb orb].
    destruct (Py.ends_with_sep (String c d)) eqn:Ed.
    + fold (append (String c d) ""). cbn [append].
      replace (d ++ "")%string with d
        by (clear; induction d as [|c d IH]; cbn; [reflexivity | now rewrite <- IH]).
      cbn [String.length Nat.eqb orb]. rewrite Ed. cbn [append].
      f_equal. clear. induction d as [|c d IH]; cbn; [reflexivity | now rewrite IH].
    + assert (E : Py.ends_with_sep (String c d ++ "/" ++ "") = true)
        by (apply ends_with_sep_app; discriminate).
      cbn [append] in E |- *. cbn [String.length Nat.eqb orb]. rewrite E. cbn [append].
      f_equal. clear. induction (d ++ "/")%string as [|c' s IH]; cbn; [reflexivity | now rewrite IH].
Qed.

(** ** The further properties on concrete runs *)

Module Checks.

Import Demo Cases.

Lemma three_scans_main : main three_scans = (fst (main three_scans), Done tt).
Proof. vm_compute. reflexivity. Defined.

Lemma seven_scans_main : main seven_scans = (fst (main seven_scans), Done tt).
Proof. vm_compute. reflexivity. Defined.

Lemma completed_run_pushes_frames_from_1_witness :
  main three_scans = (fst (main three_scans), Done tt) /\
  appended (fst (main three_scans)) = Py.range 1 (n_scans three_scans).
Proof.
  split; [exact three_scans_main|].
  apply (completed_run_pushes_frames_from_1 three_scans _ three_scans_main).
Defined.

Lemma n_scans_at_most_one_witness :
  0 <= acc_frame_count (config single) <= Py.ssize_t_max /\
  n_scans single <= 1 /\
  fst (main single) = [SaveConfig (config_file single);
                       WriteTriangleMesh (final_map_file single) TriangleMesh_new].
Proof.
  assert (HK : 0 <= acc_frame_count (config single) <= Py.ssize_t_max)
    by (split; vm_compute; discriminate).
  assert (Hn : n_scans single <= 1) by (vm_compute; discriminate).
  split; [exact HK|]. split; [exact Hn|].
  rewrite (n_scans_at_most_one_processes_nothing single HK Hn). reflexivity.
Defined.

Lemma overlong_n_scans_aborts_witness :
  0 <= acc_frame_count (config overlong) <= Py.ssize_t_max /\
  2 <= n_scans overlong /\
  Z.min (Py.len (scan_names overlong)) (Py.len (poses overlong)) < n_scans overlong /\
  snd (main overlong) = Raised Py.IndexError /\
  appended (fst (main overlong)) = Py.range 1 3.
Proof.
  assert (HK : 0 <= acc_frame_count (config overlong) <= Py.ssize_t_max)
    by (split; vm_compute; discriminate).
  assert (Hn : 2 <= n_scans overlong) by (vm_compute; discriminate).
  assert (Hm : Z.min (Py.len (scan_names overlong)) (Py.len (poses overlong))
               < n_scans overlong) by (vm_compute; reflexivity).
  destruct (overlong_n_scans_aborts overlong HK Hn Hm) as (He & Ha & _).
  split; [exact HK|]. repeat split; assumption.
Defined.

Lemma trigger_schedule_witness :
  1 <= acc_frame_count (config seven_scans) /\
  fired (fst (main seven_scans)) = [3; 6].
Proof.
  assert (HK : 1 <= acc_frame_count (config seven_scans)) by (vm_compute; discriminate).
  split; [exact HK|].
  rewrite (trigger_schedule seven_scans _ HK seven_scans_main). vm_compute. reflexivity.
Defined.

Lemma pass_count_witness :
  1 <= acc_frame_count (config seven_scans) /\
  2 <= n_scans seven_scans /\
  Py.len (fired (fst (main seven_scans))) = 2.
Proof.
  assert (HK : 1 <= acc_frame_count (config seven_scans)) by (vm_compute; discriminate).
  assert (Hn : 2 <= n_scans seven_scans) by (vm_compute; discriminate).
  split; [exact HK|]. split; [exact Hn|].
  rewrite (pass_count seven_scans _ HK Hn seven_scans_main). vm_compute. reflexivity.
Defined.


Lemma zero_accumulation_count_witness :
  acc_frame_count (config no_window) = 0 /\
  fired (fst (main no_window)) = appended (fst (main no_window)) /\
  Forall (fun w => w = []) (windows (fst (main no_window))).
Proof.
  split; [reflexivity|]. apply (zero_accumulation_count no_window eq_refl).
Defined.

Lemma checkpoint_after_every_pass_witness :
  acc_map_count (config every_pass) <= 1 /\
  marks every_pass (fst (main every_pass)) = [Pass; Interim; Pass; Interim; Final].
Proof.
  assert (HC : acc_map_count (config every_pass) <= 1) by (vm_compute; discriminate).
  split; [exact HC|].
  rewrite (checkpoint_after_every_pass every_pass _ _ HC (surjective_pairing _)).
  vm_compute. reflexivity.
Defined.

Lemma interim_write_count_witness :
  1 <= acc_map_count (config ten_scans) /\
  Py.len (filter is_interim (marks ten_scans (fst (main ten_scans)))) = 1.
Proof.
  assert (HC : 1 <= acc_map_count (config ten_scans)) by (vm_compute; discriminate).
  split; [exact HC|].
  rewrite (interim_write_count ten_scans _ _ HC (surjective_pairing _)).
  vm_compute. reflexivity.
Defined.

Lemma artifacts_under_out_dir_witness :
  map_name kitti_run = Startup.map_name_of kitti_00 /\
  Py.starts_with_sep (Startup.dataset_name kitti_00) = false /\
  final_map_file kitti_run = "out/ply_00_depth_10_cropped_gicp_mesh.ply" /\
  String.prefix (out_dir (config kitti_run)) (final_map_file kitti_run) = true.
Proof.
  split; [reflexivity|]. split; [reflexivity|]. split; [reflexivity|].
  apply (artifacts_under_out_dir kitti_run kitti_00 eq_refl eq_refl).
Defined.

Lemma scans_dir_ends_with_sep_witness :
  Startup.scan_pattern "/data/kitti/ply" (Some "00")
  = "/data/kitti/ply/sequences/00/velodyne/*.ply" /\
  Py.ends_with_sep (Startup.scans_dir "/data/kitti/ply" (Some "00")) = true.
Proof.
  split; [reflexivity|].
  apply (scans_dir_ends_with_sep "/data/kitti/ply" (Some "00") (or_introl eq_refl)).
Defined.

Lemma odometry_only_drops_final_write_witness :
  main (with_odometry_only true three_scans)
  = (fst (main (with_odometry_only true three_scans)), Done tt) /\
  List.length (mesh_writes (fst (main (with_odometry_only false three_scans))))
  = S (List.length (mesh_writes (fst (main (with_odometry_only true three_scans))))).
Proof.
  assert (H : main (with_odometry_only true three_scans)
              = (fst (main (with_odometry_only true three_scans)), Done tt))
    by (vm_compute; reflexivity).
  split; [exact H|].
  rewrite (odometry_only_drops_final_write three_scans _ _ H).
  cbn [fst]. rewrite mesh_writes_app, length_app. cbn [mesh_writes flat_map app List.length].
  apply Nat.add_1_r.
Defined.

End Checks.
